(** * Bookmarker: the collection pipeline, the reorder engine and the
    import/merge engine of [src/App.tsx]

    The development embeds the state-handling code of the [App] component:
    - [filteredBookmarks] (the filter-then-sort view),
    - [handleDragEnd] (reordering of the stored collection),
    - [handleImportFile] (validation and merge of an imported file).

    The collection lives in [localStorage] and comes back through
    [JSON.parse]; an imported file is typed [any].  What the handlers see at
    run time is therefore a JavaScript value, not a checked [Bookmark], and
    the code is embedded over such values, with the [TypeError]s that
    property access can raise.  The typed [Bookmark] of the application is a
    record that is injected into values by [toJs]. *)

From Stdlib Require Import ZArith String Ascii.
From stdpp Require Import base option list gmap strings sorting.

Local Open Scope string_scope.
Local Open Scope list_scope.

Set Default Proof Using "Type".

(** ** JavaScript values and completions *)

(** The values [JSON.parse] produces, and [undefined].  Numbers are the
    integers (timestamps are epoch milliseconds); an object is the list of
    its own properties, the first binding of a key being the one read. *)
#[warnings="-register-all"]
Inductive JsVal : Type :=
| JUndefined
| JNull
| JBool (b : bool)
| JNum (n : Z)
| JStr (s : string)
| JArr (elems : list JsVal)
| JObj (props : list (string * JsVal)).

Inductive exn : Type := TypeError | SyntaxError.

(** The completion of an expression: a value, or a thrown exception. *)
Inductive result (A : Type) : Type :=
| Ok (a : A)
| Throw (e : exn).
Arguments Ok {A} a.
Arguments Throw {A} e.

#[global] Instance result_ret : MRet result := fun A a => Ok a.
#[global] Instance result_bind : MBind result := fun A B f m =>
  match m with Ok a => f a | Throw e => Throw e end.

(** The property names the application reads. *)
Inductive Field : Type :=
  f_id | f_url | f_title | f_domain | f_category | f_createdAt.

Definition field_name (f : Field) : string :=
  match f with
  | f_id => "id" | f_url => "url" | f_title => "title"
  | f_domain => "domain" | f_category => "category"
  | f_createdAt => "createdAt"
  end.

Fixpoint own_property (k : string) (props : list (string * JsVal)) : JsVal :=
  match props with
  | [] => JUndefined
  | (k', v) :: rest => if String.eqb k k' then v else own_property k rest
  end.

(** [v.f]: reading a property of [null] or [undefined] throws; none of the
    six names is defined on the prototype of a boolean, a number, a string
    or an array, nor on [Object.prototype]. *)
Definition get (v : JsVal) (f : Field) : result JsVal :=
  match v with
  | JUndefined | JNull => Throw TypeError
  | JObj props => Ok (own_property (field_name f) props)
  | JBool _ | JNum _ | JStr _ | JArr _ => Ok JUndefined
  end.

(** ToBoolean. *)
Definition truthy (v : JsVal) : bool :=
  match v with
  | JUndefined | JNull => false
  | JBool b => b
  | JNum n => negb (n =? 0)%Z
  | JStr s => negb (String.eqb s "")
  | JArr _ | JObj _ => true
  end.

(** [typeof v === 'number'] *)
Definition typeof_number (v : JsVal) : bool :=
  match v with JNum _ => true | _ => false end.

(** [v === s] for a string [s]. *)
Definition strict_eq_string (v : JsVal) (s : string) : bool :=
  match v with JStr t => String.eqb t s | _ => false end.

(** SameValueZero, the membership test of [Set.prototype.has].  Objects and
    arrays are compared by reference: the ones [JSON.parse] has just built
    are identical to no other value. *)
Definition same_value_zero (a b : JsVal) : bool :=
  match a, b with
  | JUndefined, JUndefined => true
  | JNull, JNull => true
  | JBool x, JBool y => Bool.eqb x y
  | JNum x, JNum y => (x =? y)%Z
  | JStr x, JStr y => String.eqb x y
  | _, _ => false
  end.

(** ** Strings *)

(** [String.prototype.includes]: [sub] occurs in [s] at some offset. *)
Fixpoint includes (s sub : string) : bool :=
  String.prefix sub s ||
  match s with
  | EmptyString => false
  | String _ s' => includes s' sub
  end.

(** ** What the engine supplies for strings *)

Section Engine.

(** [String.prototype.toLowerCase] is the engine's: it follows the Unicode
    case mapping, which is neither letter by letter nor free of context.
    It is a parameter here; all that is used of it, and only for the empty
    query, is that it maps the empty string to itself. *)
Variable toLowerCase : string → string.
Hypothesis toLowerCase_empty : toLowerCase "" = "".

(** StringToNumber, the conversion of a string to a number; [None] is
    [NaN].  It throws on no string. *)
Variable StringToNumber : string → option Z.

(** [v.toLowerCase()]: only a string has the method; on [undefined] and
    [null] the property read throws, on any other value the call does. *)
Definition call_toLowerCase (v : JsVal) : result string :=
  match v with
  | JStr s => Ok (toLowerCase s)
  | _ => Throw TypeError
  end.

(** ** The data model *)

(** The categories of [CATEGORIES]; ['All Bookmarks'] is the filter-only
    one. *)
Inductive CategoryType : Type :=
  AllBookmarks | YouTube | Websites | Developer | Social | Learning | Shopping.

Definition CategoryType_str (c : CategoryType) : string :=
  match c with
  | AllBookmarks => "All Bookmarks"
  | YouTube => "YouTube"
  | Websites => "Websites"
  | Developer => "Developer"
  | Social => "Social"
  | Learning => "Learning"
  | Shopping => "Shopping"
  end.

#[global] Instance CategoryType_eq_dec : EqDecision CategoryType.
Proof. solve_decision. Defined.

Inductive SortOption : Type :=
  newest | oldest | a_z | z_a | by_domain | custom.

#[global] Instance SortOption_eq_dec : EqDecision SortOption.
Proof. solve_decision. Defined.

(** Modelled from the spec: the [Bookmark] interface is declared in
    [./types], which is not among the sources; its fields are those of the
    data model (section 3) and those the components read. *)
Record Bookmark : Type := mkBookmark {
  id : string;
  url : string;
  title : string;
  domain : string;
  category : CategoryType;
  createdAt : Z
}.

(** The run-time value of a typed bookmark. *)
Definition toJs (b : Bookmark) : JsVal :=
  JObj [ ("id", JStr (id b)); ("url", JStr (url b));
         ("title", JStr (title b)); ("domain", JStr (domain b));
         ("category", JStr (CategoryType_str (category b)));
         ("createdAt", JNum (createdAt b)) ].

(** [UniqueIdentifier] of dnd-kit: [string | number]. *)
Inductive UniqueIdentifier : Type :=
| UStr (s : string)
| UNum (n : Z).

#[global] Instance UniqueIdentifier_eq_dec : EqDecision UniqueIdentifier.
Proof. solve_decision. Defined.

(** [v === u] *)
Definition strict_eq_id (v : JsVal) (u : UniqueIdentifier) : bool :=
  match v, u with
  | JStr s, UStr t => String.eqb s t
  | JNum n, UNum m => (n =? m)%Z
  | _, _ => false
  end.

(** The [useState]/[useLocalStorage] cells of [App] that the three
    operations read or write. *)
Record AppState : Type := mkAppState {
  bookmarks : list JsVal;
  selectedCategory : CategoryType;
  searchQuery : string;
  sortOption : SortOption;
  activeId : option UniqueIdentifier;
  isSettingsOpen : bool
}.

(** ** Arrays *)

(** Arrays are mutable objects: [sort] and [splice] update the array they
    are called on, [filter] and [slice] allocate a new one.  The store maps
    a reference to the elements of the array it denotes; the view is
    computed in it, on the reference the state holds.  [arrayMove] works on
    the copy it makes, and is given by the contents of that copy. *)
Abbreviation loc := positive (only parsing).
Abbreviation store := (gmap positive (list JsVal)) (only parsing).

(** The elements [Array.prototype.filter] keeps; the callback runs on the
    elements in index order and its first exception ends the call. *)
Fixpoint filter_elems (callback : JsVal → result bool) (elems : list JsVal)
  : result (list JsVal) :=
  match elems with
  | [] => Ok []
  | x :: rest =>
      keep ← callback x;
      kept ← filter_elems callback rest;
      Ok (if keep : bool then x :: kept else kept)
  end.

(** [a.filter(callback)]: the kept elements go to a fresh array. *)
Definition Array_filter (callback : JsVal → result bool) (a : loc) (σ : store)
  : result (loc * store) :=
  match σ !! a with
  | None => Throw TypeError
  | Some elems =>
      kept ← filter_elems callback elems;
      let a' := fresh (dom σ) in
      Ok (a', <[a' := kept]> σ)
  end.

(** SortCompare: [undefined] sorts last and is never passed to the
    comparator; a [NaN] result counts as [0]. *)
Definition SortCompare (comparefn : JsVal → JsVal → result (option Z))
  (x y : JsVal) : result Z :=
  match x, y with
  | JUndefined, JUndefined => Ok 0%Z
  | JUndefined, _ => Ok 1%Z
  | _, JUndefined => Ok (-1)%Z
  | _, _ => v ← comparefn x y; Ok (default 0%Z v)
  end.

(** The sort is stable (ECMAScript 2019): an insertion sort that never
    moves an element past one it does not compare greater than.  For a
    consistent comparator every stable sort gives this order.  The pairs
    the engine passes to the comparator, and the order it leaves under a
    comparator that is not consistent, are its own: the properties below
    state an order only for comparators that are consistent on the
    elements sorted (creation times, the constant of [custom]), and
    completion only where the comparator throws on no pair of them. *)
Fixpoint sort_insert (comparefn : JsVal → JsVal → result (option Z))
  (x : JsVal) (sorted : list JsVal) : result (list JsVal) :=
  match sorted with
  | [] => Ok [x]
  | y :: rest =>
      c ← SortCompare comparefn x y;
      if (c <=? 0)%Z then Ok (x :: y :: rest)
      else (r ← sort_insert comparefn x rest; Ok (y :: r))
  end.

Fixpoint sort_elems (comparefn : JsVal → JsVal → result (option Z))
  (elems : list JsVal) : result (list JsVal) :=
  match elems with
  | [] => Ok []
  | x :: rest =>
      sorted ← sort_elems comparefn rest;
      sort_insert comparefn x sorted
  end.

(** [a.sort(comparefn)]: sorts [a] in place and returns [a] itself. *)
Definition Array_sort (comparefn : JsVal → JsVal → result (option Z))
  (a : loc) (σ : store) : result (loc * store) :=
  match σ !! a with
  | None => Throw TypeError
  | Some elems =>
      sorted ← sort_elems comparefn elems;
      Ok (a, <[a := sorted]> σ)
  end.

(** [items.findIndex(predicate)]: the first index whose element satisfies
    the predicate, [-1] when there is none. *)
Fixpoint findIndex_from (predicate : JsVal → result bool) (elems : list JsVal)
  (k : Z) : result Z :=
  match elems with
  | [] => Ok (-1)%Z
  | x :: rest =>
      found ← predicate x;
      if found : bool then Ok k else findIndex_from predicate rest (k + 1)%Z
  end.

Definition findIndex (predicate : JsVal → result bool) (elems : list JsVal)
  : result Z :=
  findIndex_from predicate elems 0%Z.

(** [a.splice(start, deleteCount, ...items)] on the elements of [a]: the
    removed elements and the new contents.  A negative [start] counts from
    the end; both arguments are clamped to the array. *)
Definition Array_splice (elems : list JsVal) (start deleteCount : Z)
  (items : list JsVal) : list JsVal * list JsVal :=
  let len := Z.of_nat (length elems) in
  let actualStart :=
    if (start <? 0)%Z then Z.max (len + start) 0 else Z.min start len in
  let actualDeleteCount := Z.min (Z.max deleteCount 0) (len - actualStart) in
  let s := Z.to_nat actualStart in
  let d := Z.to_nat actualDeleteCount in
  (take d (drop s elems), take s elems ++ items ++ drop (s + d) elems).

(** Modelled from the spec: [arrayMove] is imported from
    [@dnd-kit/sortable] and its body is not among the sources.  Section 4.3
    has it remove the source element and reinsert it at the position of the
    target; the definition writes this with the two [splice] calls of the
    body the library publishes, which is also what decides the indices
    [-1] that [findIndex] can return:
<<
  export function arrayMove<T>(array: T[], from: number, to: number): T[] {
    const newArray = array.slice();
    newArray.splice(
      to < 0 ? newArray.length + to : to,
      0,
      newArray.splice(from, 1)[0]
    );
    return newArray;
  }
>>
    The arguments of the outer [splice] are evaluated from left to right:
    the insertion index is computed on the full length, then the inner
    [splice] takes the element out; [removed[0]] of an empty array is
    [undefined]. *)
Definition arrayMove (array : list JsVal) (from to : Z) : list JsVal :=
  let newArray := array in
  let start := if (to <? 0)%Z then (Z.of_nat (length newArray) + to)%Z else to in
  let '(removed, newArray) := Array_splice newArray from 1 [] in
  let item := match removed with x :: _ => x | [] => JUndefined end in
  snd (Array_splice newArray start 0 [item]).

(** ** The application *)

Section App.

(** What the engine supplies: [String.prototype.localeCompare] on a string
    receiver, [JSON.parse] ([None] is a [SyntaxError]), and ToNumber on
    arrays and objects, which goes through ToPrimitive and throws a
    [TypeError] when neither [valueOf] nor [toString] of the object can be
    called. *)
Variable localeCompare : string → JsVal → Z.
Variable JSON_parse : string → option JsVal.
Variable ToNumber_nonprimitive : JsVal → result (option Z).

(** ToNumber; [None] is [NaN]. *)
Definition ToNumber (v : JsVal) : result (option Z) :=
  match v with
  | JUndefined => Ok None
  | JNull => Ok (Some 0%Z)
  | JBool b => Ok (Some (if b then 1 else 0)%Z)
  | JNum n => Ok (Some n)
  | JStr s => Ok (StringToNumber s)
  | JArr _ | JObj _ => ToNumber_nonprimitive v
  end.

(** [x - y]: both operands are converted, the left one first. *)
Definition Number_sub (x y : JsVal) : result (option Z) :=
  a ← ToNumber x;
  b ← ToNumber y;
  Ok (a ← a; b ← b; Some (a - b)%Z).

(** [recv.localeCompare(that)] *)
Definition call_localeCompare (recv that : JsVal) : result (option Z) :=
  match recv with
  | JStr s => Ok (Some (localeCompare s that))
  | _ => Throw TypeError
  end.

(** *** The view: [filteredBookmarks] *)

(** The callback of [bookmarks.filter]. *)
Definition filterCallback (st : AppState) (bookmark : JsVal) : result bool :=
  matchesCategory ←
    (if decide (selectedCategory st = AllBookmarks) then Ok true
     else c ← get bookmark f_category;
          Ok (strict_eq_string c (CategoryType_str (selectedCategory st))));
  matchesSearch ←
    (t ← get bookmark f_title;
     lt ← call_toLowerCase t;
     if includes lt (toLowerCase (searchQuery st)) then Ok true
     else d ← get bookmark f_domain;
          ld ← call_toLowerCase d;
          Ok (includes ld (toLowerCase (searchQuery st))));
  Ok (matchesCategory && matchesSearch).

(** The comparator of [.sort]. *)
Definition sortCallback (st : AppState) (a b : JsVal) : result (option Z) :=
  match sortOption st with
  | newest =>
      cb ← get b f_createdAt; ca ← get a f_createdAt; Number_sub cb ca
  | oldest =>
      ca ← get a f_createdAt; cb ← get b f_createdAt; Number_sub ca cb
  | a_z => ta ← get a f_title; tb ← get b f_title; call_localeCompare ta tb
  | z_a => tb ← get b f_title; ta ← get a f_title; call_localeCompare tb ta
  | by_domain =>
      da ← get a f_domain; db ← get b f_domain; call_localeCompare da db
  | custom => Ok (Some 0%Z)
  end.

(** [bookmarks.filter(...).sort(...)], [bookmarks] being the reference held
    by the state. *)
Definition filteredBookmarks (st : AppState) (bookmarks_ref : loc) (σ : store)
  : result (loc * store) :=
  '(filtered, σ1) ← Array_filter (filterCallback st) bookmarks_ref σ;
  Array_sort (sortCallback st) filtered σ1.

(** The elements of the view, for the collection of the state. *)
Definition view (st : AppState) : result (list JsVal) :=
  kept ← filter_elems (filterCallback st) (bookmarks st);
  sort_elems (sortCallback st) kept.

(** *** Reordering: [handleDragEnd] *)

Record DragEndEvent : Type := mkDragEndEvent {
  active : UniqueIdentifier;
  over : option UniqueIdentifier
}.

Definition setSortOption (o : SortOption) (st : AppState) : AppState :=
  mkAppState (bookmarks st) (selectedCategory st) (searchQuery st) o
    (activeId st) (isSettingsOpen st).

Definition setActiveId (a : option UniqueIdentifier) (st : AppState) : AppState :=
  mkAppState (bookmarks st) (selectedCategory st) (searchQuery st)
    (sortOption st) a (isSettingsOpen st).

Definition setBookmarks (bs : list JsVal) (st : AppState) : AppState :=
  mkAppState bs (selectedCategory st) (searchQuery st) (sortOption st)
    (activeId st) (isSettingsOpen st).

Definition setIsSettingsOpen (b : bool) (st : AppState) : AppState :=
  mkAppState (bookmarks st) (selectedCategory st) (searchQuery st)
    (sortOption st) (activeId st) b.

Definition has_id (u : UniqueIdentifier) (i : JsVal) : result bool :=
  v ← get i f_id; Ok (strict_eq_id v u).

Definition handleDragEnd (event : DragEndEvent) (st : AppState)
  : result AppState :=
  let st := setActiveId None st in
  match over event with
  | None => Ok st
  | Some over_id =>
      if decide (active event = over_id) then Ok st
      else
        let st :=
          if decide (sortOption st = custom) then st
          else setSortOption custom st in
        let items := bookmarks st in
        oldIndex ← findIndex (has_id (active event)) items;
        newIndex ← findIndex (has_id over_id) items;
        Ok (setBookmarks (arrayMove items oldIndex newIndex) st)
  end.

(** *** Import and merge: [handleImportFile] *)

(** The messages of [alert]:
    - [AlertImported n]: "Successfully imported n new bookmarks."
    - [AlertInvalidFile]: "Invalid file format. Please upload a valid
      Bookmarker JSON backup."  (the validation error invalid-shape)
    - [AlertNotArray]: "Invalid JSON format. Expected an array of
      bookmarks."  (the validation error not-an-array)
    - [AlertParseError]: "Error parsing JSON file." *)
Inductive Alert : Type :=
| AlertImported (n : nat)
| AlertInvalidFile
| AlertNotArray
| AlertParseError.

(** [parsed.every(callback)] *)
Fixpoint every (callback : JsVal → result bool) (elems : list JsVal)
  : result bool :=
  match elems with
  | [] => Ok true
  | x :: rest =>
      ok ← callback x;
      if ok : bool then every callback rest else Ok false
  end.

(** [a.map(callback)] *)
Fixpoint map_elems (callback : JsVal → result JsVal) (elems : list JsVal)
  : result (list JsVal) :=
  match elems with
  | [] => Ok []
  | x :: rest =>
      y ← callback x; ys ← map_elems callback rest; Ok (y :: ys)
  end.

(** [b.id && b.url && typeof b.createdAt === 'number'], as [every] reads
    it. *)
Definition validElement (b : JsVal) : result bool :=
  i ← get b f_id;
  if negb (truthy i) then Ok false
  else
    u ← get b f_url;
    if negb (truthy u) then Ok false
    else c ← get b f_createdAt; Ok (typeof_number c).

(** [currentIds.has(v)], the set being the list of the values added. *)
Definition Set_has (currentIds : list JsVal) (v : JsVal) : bool :=
  existsb (same_value_zero v) currentIds.

Definition notCurrent (currentIds : list JsVal) (b : JsVal) : result bool :=
  i ← get b f_id; Ok (negb (Set_has currentIds i)).

(** Lines 223 to 225: the new bookmarks and the updated collection. *)
Definition mergeBookmarks (current parsed : list JsVal)
  : result (list JsVal * list JsVal) :=
  currentIds ← map_elems (λ b, get b f_id) current;
  newBookmarks ← filter_elems (notCurrent currentIds) parsed;
  Ok (newBookmarks, current ++ newBookmarks).

(** The body of [try]: what it does to the state and the message it shows,
    or the exception it throws.  Nothing is written before the last point
    that can throw. *)
Definition importParsed (parsed : JsVal) (confirmed : bool) (st : AppState)
  : result (AppState * list Alert) :=
  match parsed with
  | JArr elems =>
      isValid ← every validElement elems;
      if isValid : bool then
        if confirmed then
          '(newBookmarks, updatedBookmarks) ← mergeBookmarks (bookmarks st) elems;
          Ok (setIsSettingsOpen false (setBookmarks updatedBookmarks st),
              [AlertImported (length newBookmarks)])
        else Ok (st, [])
      else Ok (st, [AlertInvalidFile])
  | _ => Ok (st, [AlertNotArray])
  end.

(** [fileReader.onload]: [content] is the text of the file, [confirmed] the
    answer to [confirm]. *)
Definition handleImportFile (content : string) (confirmed : bool)
  (st : AppState) : AppState * list Alert :=
  if String.eqb content "" then (st, [])
  else
    let attempt :=
      match JSON_parse content with
      | None => Throw SyntaxError
      | Some parsed => importParsed parsed confirmed st
      end in
    match attempt with
    | Ok r => r
    | Throw _ => (st, [AlertParseError])
    end.

End App.

(** ** The other handlers of [App] *)

(** The cells of [App] behind the modals and the settings: the stored
    theme, the edit form and the delete confirmation, at their declared
    types ([Bookmark | null], [string | null]); the collection inside [app]
    stays a list of run-time values. *)
Record UiState : Type := mkUiState {
  app : AppState;
  theme : string;
  isModalOpen : bool;
  editingBookmark : option Bookmark;
  itemToDelete : option string
}.

Definition setApp (a : AppState) (ui : UiState) : UiState :=
  mkUiState a (theme ui) (isModalOpen ui) (editingBookmark ui) (itemToDelete ui).

Definition setTheme (t : string) (ui : UiState) : UiState :=
  mkUiState (app ui) t (isModalOpen ui) (editingBookmark ui) (itemToDelete ui).

Definition setIsModalOpen (b : bool) (ui : UiState) : UiState :=
  mkUiState (app ui) (theme ui) b (editingBookmark ui) (itemToDelete ui).

Definition setEditingBookmark (e : option Bookmark) (ui : UiState) : UiState :=
  mkUiState (app ui) (theme ui) (isModalOpen ui) e (itemToDelete ui).

Definition setItemToDelete (i : option string) (ui : UiState) : UiState :=
  mkUiState (app ui) (theme ui) (isModalOpen ui) (editingBookmark ui) i.

(** [setTheme(prev => prev === 'dark' ? 'light' : 'dark')] *)
Definition toggleTheme (ui : UiState) : UiState :=
  setTheme (if String.eqb (theme ui) "dark" then "light" else "dark") ui.

Definition openAddModal (ui : UiState) : UiState :=
  setIsModalOpen true (setEditingBookmark None ui).

Definition openEditModal (bookmark : Bookmark) (ui : UiState) : UiState :=
  setIsModalOpen true (setEditingBookmark (Some bookmark) ui).

(** [Omit<Bookmark, 'id' | 'createdAt'>], the data of the form. *)
Record BookmarkData : Type := mkBookmarkData {
  data_url : string;
  data_title : string;
  data_domain : string;
  data_category : CategoryType
}.

(** The own properties of the object the form submits. *)
Definition dataProps (d : BookmarkData) : list (string * JsVal) :=
  [ ("url", JStr (data_url d)); ("title", JStr (data_title d));
    ("domain", JStr (data_domain d));
    ("category", JStr (CategoryType_str (data_category d))) ].

(** Defining property [k] of an object: an existing key keeps its place and
    takes the value, a new key goes last. *)
Fixpoint set_property (k : string) (v : JsVal) (props : list (string * JsVal))
  : list (string * JsVal) :=
  match props with
  | [] => [(k, v)]
  | (k', v') :: rest =>
      if String.eqb k k' then (k, v) :: rest
      else (k', v') :: set_property k v rest
  end.

(** [{ ...target, ...source }] on the own properties. *)
Definition spread (target source : list (string * JsVal))
  : list (string * JsVal) :=
  fold_left (λ acc kv, set_property kv.1 kv.2 acc) source target.

(** The own properties an object spread copies.  Where it is used the
    value has a string [id], so that it is an object. *)
Definition own_props (v : JsVal) : list (string * JsVal) :=
  match v with JObj props => props | _ => [] end.

(** The callback of [prev.map] in the update branch:
    [b.id === editingBookmark.id ? { ...b, ...bookmarkData } : b]. *)
Definition updateCallback (editing : Bookmark) (bookmarkData : BookmarkData)
  (b : JsVal) : result JsVal :=
  i ← get b f_id;
  if strict_eq_string i (id editing)
  then Ok (JObj (spread (own_props b) (dataProps bookmarkData)))
  else Ok b.

(** [{ ...bookmarkData, id: crypto.randomUUID(), createdAt: Date.now() }] *)
Definition newBookmark (bookmarkData : BookmarkData) (uuid : string) (now : Z)
  : JsVal :=
  JObj (set_property "createdAt" (JNum now)
          (set_property "id" (JStr uuid) (dataProps bookmarkData))).

(** [handleSaveBookmark]; [uuid] and [now] are what [crypto.randomUUID()]
    and [Date.now()] answer in the branch that calls them. *)
Definition handleSaveBookmark (bookmarkData : BookmarkData) (uuid : string)
  (now : Z) (ui : UiState) : result UiState :=
  ui' ←
    match editingBookmark ui with
    | Some editing =>
        updated ← map_elems (updateCallback editing bookmarkData)
                    (bookmarks (app ui));
        Ok (setApp (setBookmarks updated (app ui)) ui)
    | None =>
        Ok (setApp (setBookmarks
                      (newBookmark bookmarkData uuid now :: bookmarks (app ui))
                      (app ui)) ui)
    end;
  Ok (setEditingBookmark None (setIsModalOpen false ui')).

Definition handleDeleteClick (i : string) (ui : UiState) : UiState :=
  setItemToDelete (Some i) ui.

(** The callback of [prev.filter] in [confirmDelete]:
    [b.id !== itemToDelete]. *)
Definition deleteCallback (i : string) (b : JsVal) : result bool :=
  v ← get b f_id; Ok (negb (strict_eq_string v i)).

(** [confirmDelete]: the guard [if (itemToDelete)] is false on [null] and
    on the empty string. *)
Definition confirmDelete (ui : UiState) : result UiState :=
  match itemToDelete ui with
  | Some i =>
      if String.eqb i "" then Ok ui
      else
        kept ← filter_elems (deleteCallback i) (bookmarks (app ui));
        Ok (setItemToDelete None (setApp (setBookmarks kept (app ui)) ui))
  | None => Ok ui
  end.

(** [handleClearAll]; [confirmed] is the answer to [confirm]. *)
Definition handleClearAll (confirmed : bool) (st : AppState) : AppState :=
  if confirmed then setIsSettingsOpen false (setBookmarks [] st) else st.

(** [handleDragStart] *)
Definition handleDragStart (active_id : UniqueIdentifier) (st : AppState)
  : AppState :=
  setActiveId (Some active_id) st.

(** ToBoolean of an identifier. *)
Definition truthy_id (u : UniqueIdentifier) : bool :=
  match u with
  | UStr s => negb (String.eqb s "")
  | UNum n => negb (n =? 0)%Z
  end.

(** [a.find(predicate)]: the first element that satisfies the predicate,
    [undefined] when there is none. *)
Fixpoint find (predicate : JsVal → result bool) (elems : list JsVal)
  : result JsVal :=
  match elems with
  | [] => Ok JUndefined
  | x :: rest =>
      found ← predicate x;
      if found : bool then Ok x else find predicate rest
  end.

(** [activeId ? bookmarks.find(b => b.id === activeId) : null] *)
Definition activeBookmark (st : AppState) : result JsVal :=
  match activeId st with
  | Some a =>
      if truthy_id a then find (has_id a) (bookmarks st) else Ok JNull
  | None => Ok JNull
  end.

(** The three branches of the grid area. *)
Inductive Screen : Type :=
| EmptyState            (* "No bookmarks yet" *)
| NoMatches             (* "No matches found" *)
| Grid (cards : list JsVal).

Section Rendering.
Variable localeCompare : string → JsVal → Z.
Variable ToNumber_nonprimitive : JsVal → result (option Z).

(** The branch the render takes: [filteredBookmarks] is computed before
    the test, which reads [bookmarks.length] and then
    [filteredBookmarks.length]. *)
Definition screen (st : AppState) : result Screen :=
  filtered ← view localeCompare ToNumber_nonprimitive st;
  Ok (if (length (bookmarks st) =? 0)%nat then EmptyState
      else if (length filtered =? 0)%nat then NoMatches
      else Grid filtered).

(** [filteredBookmarks.map(b => b.id)], the items of [SortableContext]. *)
Definition sortableItems (st : AppState) : result (list JsVal) :=
  filtered ← view localeCompare ToNumber_nonprimitive st;
  map_elems (λ b, get b f_id) filtered.

End Rendering.

(** * The vocabulary of the properties *)

(** ** Filtering *)

(** [q] is a case-insensitive substring of [t]: up to the case mapping of
    the engine, [q] occurs in [t], that is, the lowered [q] occurs in the
    lowered [t] at some offset. *)
Definition ci_substring (q t : string) : Prop :=
  ∃ pre post, toLowerCase t = pre +:+ toLowerCase q +:+ post.

(** The two predicates of the filter, on a typed bookmark. *)
Definition matchesCategory (K : CategoryType) (b : Bookmark) : Prop :=
  K = AllBookmarks ∨ category b = K.

Definition matchesSearch (Q : string) (b : Bookmark) : Prop :=
  ci_substring Q (title b) ∨ ci_substring Q (domain b).

(** What the callback of [filter] answers on a typed bookmark. *)
Definition keeps (K : CategoryType) (Q : string) (b : Bookmark) : bool :=
  (bool_decide (K = AllBookmarks) || bool_decide (category b = K)) &&
  (includes (toLowerCase (title b)) (toLowerCase Q) ||
   includes (toLowerCase (domain b)) (toLowerCase Q)).

(** ** Reordering *)

(** Remove the element at position [i] and reinsert it at position [j]. *)
Definition remove_reinsert {A} (i j : nat) (l : list A) : list A :=
  match l !! i with
  | Some x => take j (delete i l) ++ x :: drop j (delete i l)
  | None => l
  end.

(** What [handleDragEnd] does to the sort option once the guard is passed. *)
Definition customSort (st : AppState) : AppState :=
  if decide (sortOption st = custom) then st else setSortOption custom st.

(** ** Import *)

(** An element has the shape the import asks for: an id and a url that are
    set (not empty, not zero, not [false] or [null]) and a creation time
    that is a number. *)
Definition valid_shape (b : JsVal) : Prop :=
  ∃ i u n, get b f_id = Ok i ∧ truthy i ∧
           get b f_url = Ok u ∧ truthy u ∧
           get b f_createdAt = Ok (JNum n).

Definition nullish (v : JsVal) : Prop := v = JNull ∨ v = JUndefined.

(** A bookmark of the data model: its identity token and its url are not
    empty.  This is what the validation of the import asks of a typed
    bookmark. *)
Definition well_formed (b : Bookmark) : Prop := id b ≠ "" ∧ url b ≠ "".

(** ** Saving, sorting *)

(** The typed bookmark after an edit of [editing] with the data [d]: the
    one with the id of [editing] takes the four fields of the form. *)
Definition applyEdit (editing : Bookmark) (d : BookmarkData) (b : Bookmark)
  : Bookmark :=
  if decide (id b = id editing)
  then mkBookmark (id b) (data_url d) (data_title d) (data_domain d)
         (data_category d) (createdAt b)
  else b.

(** The typed bookmark that [newBookmark] stands for. *)
Definition created (d : BookmarkData) (uuid : string) (now : Z) : Bookmark :=
  mkBookmark uuid (data_url d) (data_title d) (data_domain d)
    (data_category d) now.

(** An element whose title and domain are strings. *)
Definition has_text (b : JsVal) : Prop :=
  ∃ t d, get b f_title = Ok (JStr t) ∧ get b f_domain = Ok (JStr d).

(** A value that is not an array or an object: ToNumber converts it
    without calling any method of it. *)
Definition primitive (v : JsVal) : Prop :=
  match v with JArr _ | JObj _ => False | _ => True end.

(** An element whose creation time, if it has one, is a primitive. *)
Definition has_plain_time (b : JsVal) : Prop :=
  ∃ c, get b f_createdAt = Ok c ∧ primitive c.

(** The stable insertion sort on typed bookmarks, for a comparator [cmp]
    with integer results. *)
Fixpoint tinsert (cmp : Bookmark → Bookmark → Z) (x : Bookmark)
  (sorted : list Bookmark) : list Bookmark :=
  match sorted with
  | [] => [x]
  | y :: rest =>
      if (cmp x y <=? 0)%Z then x :: y :: rest else y :: tinsert cmp x rest
  end.

Fixpoint tsort (cmp : Bookmark → Bookmark → Z) (l : list Bookmark)
  : list Bookmark :=
  match l with
  | [] => []
  | x :: rest => tinsert cmp x (tsort cmp rest)
  end.

(** An index that [findIndex] returns, as the position [arrayMove] uses:
    [-1] stands for the last one. *)
Definition resolved (l : list JsVal) (z : Z) : nat :=
  if (z <? 0)%Z then length l - 1 else Z.to_nat z.

(** ** An example collection *)

Definition ex_foo : Bookmark :=
  mkBookmark "1" "https://foo.com" "Foo" "foo.com" Websites 100.
Definition ex_bar : Bookmark :=
  mkBookmark "2" "https://bar.com" "Bar" "bar.com" Developer 200.
Definition ex_baz : Bookmark :=
  mkBookmark "3" "https://baz.org" "Baz" "baz.org" Websites 300.

Definition ex_collection : list Bookmark := [ex_foo; ex_bar; ex_baz].

(** A state with a query and the default sort option. *)
Definition ex_state : AppState :=
  mkAppState (toJs <$> ex_collection) AllBookmarks "BA" newest None true.

Definition ex_state_custom : AppState :=
  mkAppState (toJs <$> ex_collection) AllBookmarks "BA" custom None true.

Definition ex_empty : AppState :=
  mkAppState [] AllBookmarks "" newest None true.

(** A case mapping for the examples: the letters A to Z are lowered, every
    other character is kept. *)
Definition ex_lower_ascii (c : ascii) : ascii :=
  let n := nat_of_ascii c in
  if (65 <=? n)%nat && (n <=? 90)%nat then ascii_of_nat (n + 32) else c.

Fixpoint ex_toLowerCase (s : string) : string :=
  match s with
  | EmptyString => EmptyString
  | String c s' => String (ex_lower_ascii c) (ex_toLowerCase s')
  end.

(** A case mapping that knows more letters: on UTF-8 text it also lowers
    the capital letters of the Latin-1 supplement (the two bytes 195 and
    128 to 158, but for the multiplication sign), as an engine does. *)
Definition ex_lower_latin1 (d : ascii) : option ascii :=
  let n := nat_of_ascii d in
  if (128 <=? n)%nat && (n <=? 158)%nat && negb (n =? 151)%nat
  then Some (ascii_of_nat (n + 32)) else None.

Fixpoint ex_toLowerCase_utf8 (s : string) : string :=
  match s with
  | EmptyString => EmptyString
  | String c s' =>
      match s' with
      | String d s'' =>
          match (if (nat_of_ascii c =? 195)%nat then ex_lower_latin1 d
                 else None) with
          | Some d' => String c (String d' (ex_toLowerCase_utf8 s''))
          | None => String (ex_lower_ascii c) (ex_toLowerCase_utf8 s')
          end
      | EmptyString => String (ex_lower_ascii c) EmptyString
      end
  end.

Definition ex_ecole : Bookmark :=
  mkBookmark "4" "https://ecole.fr" "ÉCOLE de Paris" "ecole.fr" Websites 400.

(** A state whose query has a letter outside ASCII. *)
Definition ex_state_ecole : AppState :=
  mkAppState (toJs <$> [ex_foo; ex_ecole]) AllBookmarks "école" newest None
    true.

Definition ex_StringToNumber (s : string) : option Z := None.

Definition ex_localeCompare (s : string) (that : JsVal) : Z :=
  match that with
  | JStr t =>
      match String.compare s t with Lt => (-1)%Z | Eq => 0%Z | Gt => 1%Z end
  | _ => 0%Z
  end.

Definition ex_ToNumber (v : JsVal) : result (option Z) := Ok None.

(** ToNumber on an object whose own [valueOf] and [toString] are both
    there and are not functions (no value read from JSON is one):
    ToPrimitive finds nothing to call and throws.  Any other object or
    array is [NaN] here. *)
Definition ex_ToNumber_strict (v : JsVal) : result (option Z) :=
  match v with
  | JObj props =>
      if bool_decide ("valueOf" ∈ props.*1 ∧ "toString" ∈ props.*1)
      then Throw TypeError else Ok None
  | _ => Ok None
  end.

(** Two elements with a title and a domain, one with such an object as
    its creation time. *)
Definition ex_state_object_time (s : SortOption) : AppState :=
  mkAppState
    [JObj [("title", JStr "Tea"); ("domain", JStr "d.io");
           ("createdAt", JNum 5)];
     JObj [("title", JStr "tin"); ("domain", JStr "e.io");
           ("createdAt", JObj [("valueOf", JNum 1); ("toString", JNum 1)])]]
    AllBookmarks "t" s None false.

(** A file whose content parses to [v]. *)
Definition ex_parse (v : JsVal) (content : string) : option JsVal := Some v.

(** An element that the validation accepts and that has no title and no
    domain. *)
Definition ex_bare (i : string) : JsVal :=
  JObj [("id", JStr i); ("url", JStr "https://x.com"); ("createdAt", JNum 1)].


Definition ex_ui : UiState := mkUiState ex_state "dark" false None None.

Definition ex_data : BookmarkData :=
  mkBookmarkData "https://qux.io" "Qux" "qux.io" Learning.

(** * Properties *)

(** ** Case-insensitive substrings *)

Lemma prefix_app (s t : string) : String.prefix s (s +:+ t) = true.
Proof.
  induction s as [|c s IH]; simpl; [by destruct t|].
  destruct (ascii_dec c c); [done|congruence].
Qed.

Lemma prefix_split (s t : string) :
  String.prefix s t = true → ∃ post, t = s +:+ post.
Proof.
  revert t. induction s as [|c s IH]; intros t H; simpl in *.
  - by exists t.
  - destruct t as [|c' t]; simpl in H; [done|].
    destruct (ascii_dec c c') as [->|]; [|done].
    destruct (IH _ H) as [post ->]. by exists post.
Qed.

Lemma includes_unfold (s sub : string) :
  includes s sub =
  String.prefix sub s ||
  match s with EmptyString => false | String _ s' => includes s' sub end.
Proof. by destruct s. Qed.

Lemma includes_spec (s sub : string) :
  includes s sub = true ↔ ∃ pre post, s = pre +:+ sub +:+ post.
Proof.
  split.
  - induction s as [|c s IH]; rewrite includes_unfold; intros H;
      apply orb_true_iff in H as [H|H]; try done.
    + apply prefix_split in H as [post ->]. by exists "", post.
    + apply prefix_split in H as [post ->]. by exists "", post.
    + destruct (IH H) as (pre & post & ->). by exists (String c pre), post.
  - intros (pre & post & ->). induction pre as [|c pre IH].
    + change (includes (sub +:+ post) sub = true).
      by rewrite includes_unfold, prefix_app.
    + change (includes (String c (pre +:+ sub +:+ post)) sub = true).
      rewrite includes_unfold, IH. apply orb_true_r.
Qed.

(** [includes] on the lowered strings is the case-insensitive substring
    test. *)
Lemma includes_ci_substring (t q : string) :
  includes (toLowerCase t) (toLowerCase q) = true ↔ ci_substring q t.
Proof. apply includes_spec. Qed.


(** ** The completion monad *)

Lemma bind_Ok {A B} (f : A → result B) (a : A) : (Ok a ≫= f) = f a.
Proof. done. Qed.

Lemma bind_Ok_inv {A B} (f : A → result B) (m : result A) (b : B) :
  (m ≫= f) = Ok b → ∃ a, m = Ok a ∧ f a = Ok b.
Proof. destruct m as [a|e]; [by exists a|done]. Qed.

Ltac inv_bind H :=
  let x := fresh "x" in
  let Hx := fresh "Hx" in
  apply bind_Ok_inv in H as (x & Hx & H).

(** ** Sorting *)

Section Sorting.
Variable comparefn : JsVal → JsVal → result (option Z).

Lemma sort_insert_perm (x : JsVal) (l : list JsVal) :
  (∀ y, y ∈ l → ∃ c, SortCompare comparefn x y = Ok c) →
  ∃ r, sort_insert comparefn x l = Ok r ∧ r ≡ₚ x :: l.
Proof.
  induction l as [|y l IH]; intros Hc; simpl.
  - by exists [x].
  - destruct (Hc y) as [c ->]; [left|]. simpl.
    destruct (c <=? 0)%Z.
    + by exists (x :: y :: l).
    + destruct IH as (r & -> & Hr).
      { intros z Hz. apply Hc. by right. }
      exists (y :: r). split; [done|]. rewrite Hr. apply Permutation_swap.
Qed.

Lemma sort_elems_perm (l : list JsVal) :
  (∀ x y, x ∈ l → y ∈ l → ∃ c, SortCompare comparefn x y = Ok c) →
  ∃ r, sort_elems comparefn l = Ok r ∧ r ≡ₚ l.
Proof.
  induction l as [|x l IH]; intros Hc; simpl.
  - by exists [].
  - destruct IH as (s & -> & Hs).
    { intros y z Hy Hz. apply Hc; by right. }
    simpl. destruct (sort_insert_perm x s) as (r & -> & Hr).
    { intros y Hy. apply Hc; [left|right]. by rewrite <-Hs. }
    exists r. split; [done|]. by rewrite Hr, Hs.
Qed.

(** A comparator that answers [0] everywhere leaves the order as it is. *)
Lemma sort_elems_equal (l : list JsVal) :
  (∀ x y, x ∈ l → y ∈ l → SortCompare comparefn x y = Ok 0%Z) →
  sort_elems comparefn l = Ok l.
Proof.
  induction l as [|x l IH]; intros Hc; simpl; [done|].
  rewrite IH by (intros y z Hy Hz; apply Hc; by right). simpl.
  destruct l as [|y l]; simpl; [done|].
  rewrite Hc; [done|left|right; left].
Qed.

End Sorting.

(** ** The view *)

Lemma keeps_spec (K : CategoryType) (Q : string) (b : Bookmark) :
  keeps K Q b ↔ matchesCategory K b ∧ matchesSearch Q b.
Proof.
  unfold keeps, matchesCategory, matchesSearch.
  rewrite andb_True, !orb_True, !bool_decide_spec, !Is_true_true.
  by rewrite !includes_ci_substring.
Qed.

Lemma CategoryType_str_eqb (c K : CategoryType) :
  String.eqb (CategoryType_str c) (CategoryType_str K) = bool_decide (c = K).
Proof. by destruct c, K. Qed.

Section View.
Variable localeCompare : string → JsVal → Z.
Variable ToNumber_nonprimitive : JsVal → result (option Z).

Local Abbreviation view := (view localeCompare ToNumber_nonprimitive).
Local Abbreviation filteredBookmarks :=
  (filteredBookmarks localeCompare ToNumber_nonprimitive).
Local Abbreviation sortCallback :=
  (sortCallback localeCompare ToNumber_nonprimitive).

Lemma filterCallback_toJs (st : AppState) (b : Bookmark) :
  filterCallback st (toJs b) = Ok (keeps (selectedCategory st) (searchQuery st) b).
Proof.
  unfold filterCallback, keeps.
  destruct (decide (selectedCategory st = AllBookmarks)) as [E|E].
  - rewrite (bool_decide_eq_true_2 _ E). simpl.
    by destruct (includes (toLowerCase (title b)) _).
  - rewrite (bool_decide_eq_false_2 _ E). simpl.
    rewrite CategoryType_str_eqb.
    by destruct (includes (toLowerCase (title b)) _).
Qed.

Lemma filter_elems_toJs (st : AppState) (C : list Bookmark) :
  filter_elems (filterCallback st) (toJs <$> C) =
  Ok (toJs <$> filter (λ b, keeps (selectedCategory st) (searchQuery st) b) C).
Proof.
  induction C as [|b C IH]; [done|].
  rewrite fmap_cons. simpl. rewrite filterCallback_toJs, IH. simpl.
  rewrite filter_cons. by destruct (keeps _ _ b).
Qed.

Lemma sortCallback_toJs (st : AppState) (a b : Bookmark) :
  ∃ v, sortCallback st (toJs a) (toJs b) = Ok v.
Proof. unfold sortCallback. destruct (sortOption st); simpl; eauto. Qed.

Lemma SortCompare_toJs (st : AppState) (x y : JsVal) (V : list Bookmark) :
  x ∈ toJs <$> V → y ∈ toJs <$> V →
  ∃ c, SortCompare (sortCallback st) x y = Ok c.
Proof.
  intros (a & -> & _)%list_elem_of_fmap (b & -> & _)%list_elem_of_fmap.
  destruct (sortCallback_toJs st a b) as [v Hv].
  exists (default 0%Z v). simpl. by rewrite Hv.
Qed.

(** A kept element is an object or a primitive, never [undefined]: the
    callback has read its title. *)
Lemma filter_elems_defined (st : AppState) (l kept : list JsVal) :
  filter_elems (filterCallback st) l = Ok kept → ∀ x, x ∈ kept → x ≠ JUndefined.
Proof.
  revert kept. induction l as [|y l IH]; intros kept H x Hx; simpl in H.
  - injection H as <-. by apply elem_of_nil in Hx.
  - inv_bind H. inv_bind H. injection H as <-.
    destruct x0.
    + apply elem_of_cons in Hx as [->|Hx]; [|by eapply IH].
      intros ->. unfold filterCallback in Hx0.
      by destruct (decide _) in Hx0.
    + by eapply IH.
Qed.

(** The pipeline on the store: the view goes to a fresh array, which is the
    one that [sort] reorders. *)
Lemma filteredBookmarks_view (st : AppState) (l : loc) (σ : store) :
  σ !! l = Some (bookmarks st) →
  filteredBookmarks st l σ =
  (V ← view st; Ok (fresh (dom σ), <[fresh (dom σ) := V]> σ)).
Proof.
  intros H. unfold filteredBookmarks, Array_filter, view.
  rewrite H. destruct (filter_elems _ _) as [kept|e]; [|done]. simpl.
  unfold Array_sort. rewrite lookup_insert_eq.
  destruct (sort_elems _ _) as [sorted|e]; [|done]. simpl.
  by rewrite insert_insert_eq.
Qed.

Lemma view_toJs (st : AppState) (C : list Bookmark) :
  bookmarks st = toJs <$> C →
  ∃ V, view st = Ok (toJs <$> V) ∧
       V ≡ₚ filter (λ b, keeps (selectedCategory st) (searchQuery st) b) C.
Proof.
  intros HC. unfold view. rewrite HC, filter_elems_toJs. simpl.
  set (F := filter _ C).
  destruct (sort_elems_perm (sortCallback st) (toJs <$> F)) as (r & -> & Hr).
  { intros x y. apply SortCompare_toJs. }
  apply Permutation_map_inv in Hr as (V & -> & HV).
  exists V. split; [done|]. by symmetry.
Qed.

(** With the sort option [custom] the view is the filtered collection
    itself, whatever the collection holds. *)
Lemma view_custom (st : AppState) :
  sortOption st = custom →
  view st = filter_elems (filterCallback st) (bookmarks st).
Proof.
  intros HS. unfold view.
  destruct (filter_elems _ _) as [kept|e] eqn:E; [|done]. simpl.
  apply sort_elems_equal. intros x y Hx Hy.
  pose proof (filter_elems_defined _ _ _ E x Hx).
  pose proof (filter_elems_defined _ _ _ E y Hy).
  unfold SortCompare, sortCallback. rewrite HS.
  by destruct x, y.
Qed.

(** Whatever the sort option, a view that is computed leaves every array
    of the store as it was. *)
Lemma filteredBookmarks_frame (st : AppState) (l r : loc) (σ σ' : store) :
  filteredBookmarks st l σ = Ok (r, σ') →
  (r ∉ dom σ) ∧ (∀ l', l' ∈ dom σ → σ' !! l' = σ !! l').
Proof.
  unfold filteredBookmarks, Array_filter, Array_sort.
  destruct (σ !! l) as [elems|]; [|done].
  destruct (filter_elems _ _) as [kept|e]; [|done]. simpl.
  rewrite lookup_insert_eq.
  destruct (sort_elems _ _) as [sorted|e]; [|done]. simpl.
  intros [= <- <-]. split; [apply is_fresh|].
  intros l' Hl'. rewrite insert_insert_eq, lookup_insert_ne; [done|].
  intros <-. by apply is_fresh in Hl'.
Qed.


(** C3. With the sort option [custom], for every category and query, the
    view of a collection [C] of bookmarks is the list of the bookmarks of
    [C] that the filter keeps, in the order [C] stores them (a subsequence
    of [C]); it is a new array, and the stored array and every other array
    are what they were. *)
Theorem view_custom_order (C : list Bookmark) (st : AppState) (l : loc)
    (σ : store) :
  sortOption st = custom →
  bookmarks st = toJs <$> C →
  σ !! l = Some (bookmarks st) →
  ∃ r σ' V,
    filteredBookmarks st l σ = Ok (r, σ') ∧
    V = filter (λ b, keeps (selectedCategory st) (searchQuery st) b) C ∧
    σ' !! r = Some (toJs <$> V) ∧
    V `sublist_of` C ∧
    r ≠ l ∧
    σ' !! l = Some (toJs <$> C) ∧
    (∀ l', l' ∈ dom σ → σ' !! l' = σ !! l').
Proof.
  intros HS HC Hl.
  set (V := filter (λ b, keeps (selectedCategory st) (searchQuery st) b) C).
  exists (fresh (dom σ)), (<[fresh (dom σ) := toJs <$> V]> σ), V.
  assert (Hrun : filteredBookmarks st l σ =
                 Ok (fresh (dom σ), <[fresh (dom σ) := toJs <$> V]> σ)).
  { rewrite (filteredBookmarks_view st l σ Hl), (view_custom st HS).
    by rewrite HC, filter_elems_toJs. }
  destruct (filteredBookmarks_frame _ _ _ _ _ Hrun) as [Hfresh Hframe].
  assert (Hdom : l ∈ dom σ) by (apply elem_of_dom; eauto).
  split_and!; [done|done|apply lookup_insert_eq|apply sublist_filter| | |done].
  - intros E. by rewrite E in Hfresh.
  - by rewrite (Hframe l Hdom), Hl, HC.
Qed.

End View.

(** ** Moving one element of a list *)

Section Move.
Context {A : Type}.
Implicit Types l : list A.

Lemma remove_reinsert_eq i j l x :
  l !! i = Some x →
  remove_reinsert i j l = take j (delete i l) ++ x :: drop j (delete i l).
Proof. intros H. unfold remove_reinsert. by rewrite H. Qed.

Lemma length_delete_lt l i : i < length l → S (length (delete i l)) = length l.
Proof.
  intros H. rewrite length_delete by by apply lookup_lt_is_Some. lia.
Qed.

Lemma length_remove_reinsert i j l :
  length (remove_reinsert i j l) = length l.
Proof.
  unfold remove_reinsert. destruct (l !! i) as [x|] eqn:E; [|done].
  apply lookup_lt_Some in E. pose proof (length_delete_lt l i E).
  rewrite length_app, length_take. simpl. rewrite length_drop. lia.
Qed.

Lemma remove_reinsert_lookup i j l x k :
  l !! i = Some x → j < length l →
  remove_reinsert i j l !! k =
  if decide (k = j) then Some x
  else if decide (k < j)
       then (if decide (k < i) then l !! k else l !! S k)
       else (if decide (k ≤ i)%nat then l !! (k - 1) else l !! k).
Proof.
  intros Hi Hj. rewrite (remove_reinsert_eq _ _ _ _ Hi).
  pose proof (lookup_lt_Some _ _ _ Hi) as Hlt.
  pose proof (length_delete_lt l i Hlt) as Hlen.
  assert (Htake : length (take j (delete i l)) = j)
    by (rewrite length_take; lia).
  destruct (decide (k = j)) as [->|Hne].
  { by apply list_lookup_middle. }
  destruct (decide (k < j)) as [Hkj|Hkj].
  - rewrite lookup_app_l by lia. rewrite lookup_take_lt by done.
    destruct (decide (k < i)).
    + by apply list_lookup_delete_lt.
    + apply list_lookup_delete_ge. lia.
  - rewrite lookup_app_r by lia. rewrite Htake.
    rewrite lookup_cons_ne_0 by lia. rewrite lookup_drop.
    replace (j + pred (k - j)) with (k - 1) by lia.
    destruct (decide (k ≤ i)%nat).
    + apply list_lookup_delete_lt. lia.
    + rewrite list_lookup_delete_ge by lia. f_equal. lia.
Qed.

(** Taking the moved element out again gives what taking it out of the
    original list gives: the other elements keep their relative order. *)
Lemma delete_remove_reinsert i j l :
  i < length l → j < length l →
  delete j (remove_reinsert i j l) = delete i l.
Proof.
  intros Hi Hj. destruct (lookup_lt_is_Some_2 l i Hi) as [x Hx].
  rewrite (remove_reinsert_eq _ _ _ _ Hx).
  pose proof (length_delete_lt l i Hi).
  assert (Htake : length (take j (delete i l)) = j)
    by (rewrite length_take; lia).
  rewrite <-Htake at 1. rewrite delete_middle. apply take_drop.
Qed.

(** Moving the element back restores the list. *)
Lemma remove_reinsert_back i j l :
  i < length l → j < length l →
  remove_reinsert j i (remove_reinsert i j l) = l.
Proof.
  intros Hi Hj. destruct (lookup_lt_is_Some_2 l i Hi) as [x Hx].
  assert (Hj' : remove_reinsert i j l !! j = Some x).
  { rewrite (remove_reinsert_lookup _ _ _ _ _ Hx Hj). by rewrite decide_True. }
  rewrite (remove_reinsert_eq _ _ _ _ Hj'), delete_remove_reinsert by done.
  rewrite delete_take_drop.
  assert (Htake : length (take i l) = i) by (rewrite length_take; lia).
  rewrite take_app_length', drop_app_length' by done.
  by apply take_drop_middle.
Qed.

Lemma remove_reinsert_same i l : remove_reinsert i i l = l.
Proof.
  unfold remove_reinsert. destruct (l !! i) as [x|] eqn:E; [|done].
  pose proof (lookup_lt_Some _ _ _ E).
  assert (Htake : length (take i l) = i) by (rewrite length_take; lia).
  rewrite delete_take_drop, take_app_length', drop_app_length' by done.
  by apply take_drop_middle.
Qed.

Lemma remove_reinsert_Permutation i j l : remove_reinsert i j l ≡ₚ l.
Proof.
  unfold remove_reinsert. destruct (l !! i) as [x|] eqn:E; [|done].
  rewrite <-Permutation_middle, take_drop. symmetry.
  by apply delete_Permutation.
Qed.

End Move.

Lemma Array_splice_remove (elems : list JsVal) (i : nat) (x : JsVal) :
  elems !! i = Some x →
  Array_splice elems (Z.of_nat i) 1 [] = ([x], delete i elems).
Proof.
  intros Hx. pose proof (lookup_lt_Some _ _ _ Hx) as Hi.
  unfold Array_splice.
  assert ((Z.of_nat i <? 0)%Z = false) as -> by lia.
  replace (Z.to_nat (Z.min (Z.of_nat i) (Z.of_nat (length elems)))) with i by lia.
  replace (Z.to_nat (Z.min (Z.max 1 0)
             (Z.of_nat (length elems) - Z.min (Z.of_nat i) (Z.of_nat (length elems)))))
    with 1 by lia.
  rewrite (drop_S _ _ _ Hx). simpl take at 1.
  replace (i + 1) with (S i) by lia.
  by rewrite app_nil_l, <-delete_take_drop.
Qed.

Lemma Array_splice_insert (elems : list JsVal) (j : nat) (x : JsVal) :
  (j ≤ length elems)%nat →
  Array_splice elems (Z.of_nat j) 0 [x] = ([], take j elems ++ x :: drop j elems).
Proof.
  intros Hj. unfold Array_splice.
  assert ((Z.of_nat j <? 0)%Z = false) as -> by lia.
  replace (Z.to_nat (Z.min (Z.of_nat j) (Z.of_nat (length elems)))) with j by lia.
  replace (Z.to_nat (Z.min (Z.max 0 0)
             (Z.of_nat (length elems) - Z.min (Z.of_nat j) (Z.of_nat (length elems)))))
    with 0 by lia.
  by rewrite Nat.add_0_r.
Qed.

(** [arrayMove] with both indices in the array is the removal and the
    reinsertion. *)
Lemma arrayMove_in_range (array : list JsVal) (i j : nat) :
  i < length array → j < length array →
  arrayMove array (Z.of_nat i) (Z.of_nat j) = remove_reinsert i j array.
Proof.
  intros Hi Hj. destruct (lookup_lt_is_Some_2 array i Hi) as [x Hx].
  rewrite (remove_reinsert_eq _ _ _ _ Hx).
  pose proof (length_delete_lt array i Hi) as Hlen.
  unfold arrayMove.
  assert ((Z.of_nat j <? 0)%Z = false) as -> by lia.
  rewrite (Array_splice_remove _ _ _ Hx).
  by rewrite Array_splice_insert by lia.
Qed.

(** ** Reordering *)

Lemma fmap_remove_reinsert {A B} (f : A → B) (i j : nat) (l : list A) :
  f <$> remove_reinsert i j l = remove_reinsert i j (f <$> l).
Proof.
  unfold remove_reinsert. rewrite list_lookup_fmap.
  destruct (l !! i) as [x|]; simpl; [|done].
  by rewrite fmap_app, fmap_cons, fmap_take, fmap_drop, list_fmap_delete.
Qed.

Lemma has_id_toJs (s : string) (b : Bookmark) :
  has_id (UStr s) (toJs b) = Ok (bool_decide (id b = s)).
Proof.
  unfold has_id. simpl. f_equal.
  destruct (String.eqb_spec (id b) s) as [E|E].
  - by rewrite bool_decide_eq_true_2.
  - by rewrite bool_decide_eq_false_2.
Qed.

Lemma findIndex_from_toJs (s : string) (C : list Bookmark) (k : Z) :
  findIndex_from (has_id (UStr s)) (toJs <$> C) k =
  Ok (match list_find (λ b, id b = s) C with
      | Some (i, _) => (k + Z.of_nat i)%Z
      | None => (-1)%Z
      end).
Proof.
  revert k. induction C as [|b C IH]; intros k; [done|].
  rewrite fmap_cons. cbn [findIndex_from list_find].
  rewrite has_id_toJs. simpl. case_decide as E.
  - rewrite bool_decide_eq_true_2 by done. f_equal. lia.
  - rewrite bool_decide_eq_false_2 by done. rewrite IH.
    destruct (list_find _ C) as [[i x]|]; simpl; [|done]. f_equal. lia.
Qed.

Lemma findIndex_toJs (s : string) (C : list Bookmark) :
  findIndex (has_id (UStr s)) (toJs <$> C) =
  Ok (match list_find (λ b, id b = s) C with
      | Some (i, _) => Z.of_nat i
      | None => (-1)%Z
      end).
Proof.
  unfold findIndex. rewrite findIndex_from_toJs.
  by destruct (list_find _ C) as [[i x]|].
Qed.

(** With distinct ids, an id is found where its bookmark is. *)
Lemma list_find_id (C : list Bookmark) (i : nat) (x : Bookmark) :
  NoDup (id <$> C) → C !! i = Some x →
  list_find (λ b, id b = id x) C = Some (i, x).
Proof.
  intros HN Hx. apply list_find_Some. split_and!; [done..|].
  intros k y Hy Hlt E.
  assert (k = i); [|lia].
  apply (NoDup_lookup _ _ _ (id x) HN); rewrite list_lookup_fmap.
  - by rewrite Hy; simpl; rewrite E.
  - by rewrite Hx.
Qed.

Lemma list_find_present (C : list Bookmark) (s : string) :
  s ∈ id <$> C → ∃ i x, list_find (λ b, id b = s) C = Some (i, x).
Proof.
  intros (b & -> & Hb)%list_elem_of_fmap.
  destruct (list_find_elem_of (λ c, id c = id b) C b Hb eq_refl) as [[i x] H].
  by exists i, x.
Qed.

Lemma sortOption_customSort (st : AppState) : sortOption (customSort st) = custom.
Proof. unfold customSort. by case_decide. Qed.

(** The handler once the guard is passed. *)
Lemma handleDragEnd_distinct (ev : DragEndEvent) (t : UniqueIdentifier)
    (st : AppState) :
  over ev = Some t → active ev ≠ t →
  handleDragEnd ev st =
  (oldIndex ← findIndex (has_id (active ev)) (bookmarks st);
   newIndex ← findIndex (has_id t) (bookmarks st);
   Ok (setBookmarks (arrayMove (bookmarks st) oldIndex newIndex)
         (customSort (setActiveId None st)))).
Proof.
  intros Ho Hne. unfold handleDragEnd, customSort.
  rewrite Ho, decide_False by done. by case_decide.
Qed.

(** A drag that ends on another item, both ids being found. *)
Lemma handleDragEnd_found (C : list Bookmark) (st : AppState) (s t : string)
    (i j : nat) (x y : Bookmark) :
  bookmarks st = toJs <$> C → s ≠ t →
  list_find (λ b, id b = s) C = Some (i, x) →
  list_find (λ b, id b = t) C = Some (j, y) →
  handleDragEnd (mkDragEndEvent (UStr s) (Some (UStr t))) st =
  Ok (setBookmarks (toJs <$> remove_reinsert i j C)
        (customSort (setActiveId None st))).
Proof.
  intros HC Hst Hs Ht.
  rewrite (handleDragEnd_distinct _ (UStr t)) by (done || simpl; congruence).
  cbn [active]. rewrite HC, !findIndex_toJs, Hs, Ht. simpl.
  apply list_find_Some in Hs as (Hs & _). apply list_find_Some in Ht as (Ht & _).
  apply lookup_lt_Some in Hs, Ht.
  rewrite arrayMove_in_range by by rewrite length_fmap.
  by rewrite fmap_remove_reinsert.
Qed.

(** The guard [if (!over || active.id === over.id) return]. *)
Lemma handleDragEnd_no_target (a : UniqueIdentifier) (st : AppState) :
  handleDragEnd (mkDragEndEvent a None) st = Ok (setActiveId None st).
Proof. done. Qed.

Lemma handleDragEnd_same (a : UniqueIdentifier) (st : AppState) :
  handleDragEnd (mkDragEndEvent a (Some a)) st = Ok (setActiveId None st).
Proof. unfold handleDragEnd. simpl. by rewrite decide_True. Qed.

Lemma handleDragEnd_custom (ev : DragEndEvent) (t : UniqueIdentifier)
    (st st' : AppState) :
  over ev = Some t → active ev ≠ t → handleDragEnd ev st = Ok st' →
  sortOption st' = custom ∧
  selectedCategory st' = selectedCategory st ∧
  searchQuery st' = searchQuery st.
Proof.
  intros Ho Hne. rewrite (handleDragEnd_distinct _ _ _ Ho Hne).
  intros H. inv_bind H. inv_bind H. injection H as <-. simpl.
  rewrite sortOption_customSort. unfold customSort. by case_decide.
Qed.

(** C4. A drag of the bookmark with id [s] that ends on the bookmark with
    id [t], both in the stored collection [C] and distinct: the two are
    looked up by id in the whole of [C] (positions [i] and [j], whatever
    filter or sort the view has); the result is [C] with the source taken
    out and put back at position [j].  It has the length of [C], the source
    at [j], the elements outside the two positions where they were, the
    elements from the old slot of the source up to the slot of the target
    one slot closer to the old slot, and the elements other than the source
    in the order they had.  With no target, or with the source as target,
    the collection stays as it is. *)
Theorem handleDragEnd_moves_source (C : list Bookmark) (st : AppState)
    (s t : string) :
  bookmarks st = toJs <$> C →
  (s ≠ t → s ∈ id <$> C → t ∈ id <$> C →
   ∃ i j x y R st',
     list_find (λ b, id b = s) C = Some (i, x) ∧
     list_find (λ b, id b = t) C = Some (j, y) ∧
     handleDragEnd (mkDragEndEvent (UStr s) (Some (UStr t))) st = Ok st' ∧
     bookmarks st' = toJs <$> R ∧
     R = take j (delete i C) ++ x :: drop j (delete i C) ∧
     length R = length C ∧
     R !! j = Some x ∧
     (∀ k, k < i `min` j ∨ i `max` j < k → R !! k = C !! k) ∧
     (∀ k, (i ≤ k)%nat ∧ k < j → R !! k = C !! S k) ∧
     (∀ k, j < k ∧ (k ≤ i)%nat → R !! k = C !! (k - 1)) ∧
     delete j R = delete i C) ∧
  (∀ a, ∃ st', handleDragEnd (mkDragEndEvent a None) st = Ok st' ∧
               bookmarks st' = bookmarks st) ∧
  (∀ a, ∃ st', handleDragEnd (mkDragEndEvent a (Some a)) st = Ok st' ∧
               bookmarks st' = bookmarks st).
Proof.
  intros HC. split_and!.
  - intros Hst Hs Ht.
    destruct (list_find_present C s Hs) as (i & x & Hi).
    destruct (list_find_present C t Ht) as (j & y & Hj).
    exists i, j, x, y, (remove_reinsert i j C). eexists.
    pose proof (handleDragEnd_found C st s t i j x y HC Hst Hi Hj) as Hrun.
    pose proof Hi as Hfi. pose proof Hj as Hfj.
    apply list_find_Some in Hi as (Hi & _). apply list_find_Some in Hj as (Hj & _).
    pose proof (lookup_lt_Some _ _ _ Hi) as Hil.
    pose proof (lookup_lt_Some _ _ _ Hj) as Hjl.
    split_and!; [exact Hfi|exact Hfj|exact Hrun|done| | | | | | |].
    + by apply remove_reinsert_eq.
    + apply length_remove_reinsert.
    + rewrite (remove_reinsert_lookup _ _ _ _ _ Hi Hjl). by rewrite decide_True.
    + intros k Hk. rewrite (remove_reinsert_lookup _ _ _ _ _ Hi Hjl).
      repeat case_decide; try done; lia.
    + intros k Hk. rewrite (remove_reinsert_lookup _ _ _ _ _ Hi Hjl).
      repeat case_decide; try done; lia.
    + intros k Hk. rewrite (remove_reinsert_lookup _ _ _ _ _ Hi Hjl).
      repeat case_decide; try done; lia.
    + by apply delete_remove_reinsert.
  - intros a. eexists. by rewrite handleDragEnd_no_target.
  - intros a. eexists. by rewrite handleDragEnd_same.
Qed.

(** C6, as the code has it. A drag that ends on no item, or on the dragged
    item itself, is ignored: the handler completes without an exception,
    and the stored collection and the sort option are what they were,
    whatever the collection holds. *)
Theorem handleDragEnd_ignored (a : UniqueIdentifier) (st : AppState) :
  (∃ st', handleDragEnd (mkDragEndEvent a None) st = Ok st' ∧
          bookmarks st' = bookmarks st ∧
          sortOption st' = sortOption st) ∧
  (∃ st', handleDragEnd (mkDragEndEvent a (Some a)) st = Ok st' ∧
          bookmarks st' = bookmarks st ∧
          sortOption st' = sortOption st).
Proof.
  split; eexists.
  - by rewrite handleDragEnd_no_target.
  - by rewrite handleDragEnd_same.
Qed.

(** C7. In a collection [C] with distinct ids, drag the bookmark at
    position [i] onto the one at position [j], then drag it back onto the
    bookmark that is now at position [i]: the stored collection is [C]
    again. *)
Theorem reorder_back_restores (C : list Bookmark) (st : AppState) (i j : nat)
    (x y : Bookmark) :
  bookmarks st = toJs <$> C →
  NoDup (id <$> C) →
  C !! i = Some x → C !! j = Some y →
  ∃ st1 z st2,
    handleDragEnd (mkDragEndEvent (UStr (id x)) (Some (UStr (id y)))) st = Ok st1 ∧
    bookmarks st1 = toJs <$> remove_reinsert i j C ∧
    remove_reinsert i j C !! j = Some x ∧
    remove_reinsert i j C !! i = Some z ∧
    handleDragEnd (mkDragEndEvent (UStr (id x)) (Some (UStr (id z)))) st1 = Ok st2 ∧
    bookmarks st2 = bookmarks st.
Proof.
  intros HC HN Hx Hy.
  pose proof (lookup_lt_Some _ _ _ Hx) as Hil.
  pose proof (lookup_lt_Some _ _ _ Hy) as Hjl.
  set (R := remove_reinsert i j C).
  assert (HRj : R !! j = Some x).
  { unfold R. rewrite (remove_reinsert_lookup _ _ _ _ _ Hx Hjl).
    by rewrite decide_True. }
  destruct (lookup_lt_is_Some_2 R i) as [z Hz].
  { unfold R. by rewrite length_remove_reinsert. }
  assert (HNR : NoDup (id <$> R)).
  { unfold R. by rewrite remove_reinsert_Permutation. }
  destruct (decide (i = j)) as [->|Hij].
  - assert (y = x) as -> by congruence. assert (z = x) as -> by congruence.
    exists (setActiveId None st), x, (setActiveId None (setActiveId None st)).
    rewrite !handleDragEnd_same. split_and!; try done.
    simpl. unfold R. by rewrite HC, remove_reinsert_same.
  - assert (Hxy : id x ≠ id y).
    { intros E. apply Hij. apply (NoDup_lookup _ _ _ (id x) HN);
        rewrite list_lookup_fmap; [by rewrite Hx|by rewrite Hy, E]. }
    assert (Hxz : id x ≠ id z).
    { intros E. apply Hij. apply (NoDup_lookup _ _ _ (id x) HNR);
        rewrite list_lookup_fmap; [by rewrite Hz, E|by rewrite HRj]. }
    set (st1 := setBookmarks (toJs <$> R) (customSort (setActiveId None st))).
    exists st1, z. eexists.
    split_and!; [|done|done|done| |].
    + by apply (handleDragEnd_found C st _ _ i j x y HC Hxy);
        apply list_find_id.
    + by apply (handleDragEnd_found R st1 _ _ j i x z eq_refl Hxz);
        apply list_find_id.
    + simpl. unfold R. by rewrite remove_reinsert_back.
Qed.

Section ReorderView.
Variable localeCompare : string → JsVal → Z.
Variable ToNumber_nonprimitive : JsVal → result (option Z).

Local Abbreviation view := (view localeCompare ToNumber_nonprimitive).

(** C5. After a drag that ended on an item other than the dragged one, the
    sort option is [custom], the category and the query are what they
    were, and the view is the filtered stored collection in its stored
    order; when the collection holds bookmarks and both ids are in it, the
    handler completes and the view is computed. *)
Theorem reorder_forces_custom (ev : DragEndEvent) (t : UniqueIdentifier)
    (st : AppState) :
  over ev = Some t → active ev ≠ t →
  (∀ st', handleDragEnd ev st = Ok st' →
     sortOption st' = custom ∧
     selectedCategory st' = selectedCategory st ∧
     searchQuery st' = searchQuery st ∧
     view st' = filter_elems (filterCallback st') (bookmarks st')) ∧
  (∀ C s t', bookmarks st = toJs <$> C →
     active ev = UStr s → t = UStr t' → s ∈ id <$> C → t' ∈ id <$> C →
     ∃ st' R,
       handleDragEnd ev st = Ok st' ∧ R ≡ₚ C ∧
       bookmarks st' = toJs <$> R ∧
       view st' =
         Ok (toJs <$> filter (λ b, keeps (selectedCategory st) (searchQuery st) b) R)).
Proof.
  intros Ho Hne. split.
  - intros st' H. destruct (handleDragEnd_custom _ _ _ _ Ho Hne H) as (HS & HK & HQ).
    split_and!; [done..|]. by apply view_custom.
  - intros C s t' HC Ha -> Hs Ht.
    destruct (list_find_present C s Hs) as (i & x & Hi).
    destruct (list_find_present C t' Ht) as (j & y & Hj).
    assert (Hst : s ≠ t') by (intros ->; by rewrite Ha in Hne).
    pose proof (handleDragEnd_found C st s t' i j x y HC Hst Hi Hj) as Hrun.
    destruct ev as [a o]. simpl in Ho, Ha. subst a o.
    eexists _, (remove_reinsert i j C).
    split_and!; [exact Hrun|apply remove_reinsert_Permutation|done|].
    rewrite view_custom by apply sortOption_customSort.
    cbn [bookmarks setBookmarks]. rewrite filter_elems_toJs.
    unfold customSort. by case_decide.
Qed.

End ReorderView.

(** ** Import and merge *)

Lemma get_Ok (b : JsVal) (f : Field) : ¬ nullish b → ∃ v, get b f = Ok v.
Proof.
  unfold nullish. destruct b; simpl; eauto; intros Hn; exfalso; apply Hn; auto.
Qed.

Lemma validElement_spec (b : JsVal) :
  validElement b = Ok true ↔ valid_shape b.
Proof.
  unfold validElement, valid_shape. split.
  - intros H. inv_bind H. destruct (truthy x) eqn:Ei; [|done]. simpl in H.
    inv_bind H. destruct (truthy x0) eqn:Eu; [|done]. simpl in H.
    inv_bind H. injection H as Ht. destruct x1; try done.
    exists x, x0, n. by rewrite Ei, Eu.
  - intros (i & u & n & -> & Hi & -> & Hu & ->). simpl.
    apply Is_true_true in Hi, Hu. by rewrite Hi, Hu.
Qed.

Lemma validElement_Ok (b : JsVal) : ¬ nullish b → ∃ v, validElement b = Ok v.
Proof.
  intros Hb. unfold validElement.
  destruct (get_Ok b f_id Hb) as [i ->]. simpl. destruct (truthy i); eauto.
  destruct (get_Ok b f_url Hb) as [u ->]. simpl. destruct (truthy u); eauto.
  destruct (get_Ok b f_createdAt Hb) as [c ->]. simpl. eauto.
Qed.

Lemma every_invalid (elems : list JsVal) :
  (∀ b, b ∈ elems → ¬ nullish b) →
  (∃ b, b ∈ elems ∧ ¬ valid_shape b) →
  every validElement elems = Ok false.
Proof.
  induction elems as [|x elems IH]; intros Hn (b & Hb & Hbad).
  { by apply elem_of_nil in Hb. }
  simpl. destruct (validElement_Ok x) as [v Hv]; [apply Hn; left|].
  rewrite Hv. simpl. destruct v; [|done].
  apply IH; [intros c Hc; apply Hn; by right|].
  apply elem_of_cons in Hb as [->|Hb]; [|by exists b].
  by apply validElement_spec in Hv.
Qed.

Lemma every_valid (elems : list JsVal) :
  (∀ b, b ∈ elems → valid_shape b) → every validElement elems = Ok true.
Proof.
  induction elems as [|x elems IH]; intros H; [done|]. simpl.
  rewrite (proj2 (validElement_spec x)) by (apply H; left). simpl.
  apply IH. intros b Hb. apply H. by right.
Qed.

Lemma valid_shape_toJs (b : Bookmark) : well_formed b → valid_shape (toJs b).
Proof.
  intros [Hi Hu]. exists (JStr (id b)), (JStr (url b)), (createdAt b). simpl.
  apply String.eqb_neq in Hi, Hu. by rewrite Hi, Hu.
Qed.

Lemma map_elems_id_toJs (C : list Bookmark) :
  map_elems (λ b, get b f_id) (toJs <$> C) = Ok (JStr <$> (id <$> C)).
Proof. induction C as [|b C IH]; [done|]. rewrite !fmap_cons. simpl. by rewrite IH. Qed.

Lemma Set_has_ids (ids : list string) (s : string) :
  Set_has (JStr <$> ids) (JStr s) = bool_decide (s ∈ ids).
Proof.
  unfold Set_has. induction ids as [|i ids IH]; [done|].
  rewrite fmap_cons. simpl. rewrite IH.
  destruct (String.eqb_spec s i) as [->|E]; simpl.
  - rewrite bool_decide_eq_true_2; [done|left].
  - apply bool_decide_ext. rewrite elem_of_cons.
    split; [by right|by intros [?|?]].
Qed.

Lemma notCurrent_toJs (ids : list string) (b : Bookmark) :
  notCurrent (JStr <$> ids) (toJs b) = Ok (negb (bool_decide (id b ∈ ids))).
Proof.
  unfold notCurrent. change (get (toJs b) f_id) with (Ok (JStr (id b))).
  by rewrite bind_Ok, Set_has_ids.
Qed.

Lemma filter_notCurrent_toJs (A B : list Bookmark) :
  filter_elems (notCurrent (JStr <$> (id <$> A))) (toJs <$> B) =
  Ok (toJs <$> filter (λ b, id b ∉ id <$> A) B).
Proof.
  induction B as [|b B IH]; [done|].
  rewrite fmap_cons. cbn [filter_elems]. rewrite notCurrent_toJs, IH, filter_cons.
  destruct (decide (id b ∉ id <$> A)) as [E|E].
  - by rewrite bool_decide_eq_false_2.
  - apply dec_stable in E. by rewrite bool_decide_eq_true_2.
Qed.

Lemma mergeBookmarks_toJs (A B : list Bookmark) :
  mergeBookmarks (toJs <$> A) (toJs <$> B) =
  Ok (toJs <$> filter (λ b, id b ∉ id <$> A) B,
      toJs <$> (A ++ filter (λ b, id b ∉ id <$> A) B)).
Proof.
  unfold mergeBookmarks. rewrite map_elems_id_toJs. simpl.
  rewrite filter_notCurrent_toJs. simpl. by rewrite fmap_app.
Qed.

Lemma filter_none {A} (P : A → Prop) `{!∀ x, Decision (P x)} (l : list A) :
  (∀ x, x ∈ l → ¬ P x) → filter P l = [].
Proof.
  induction l as [|x l IH]; intros HP; [done|].
  rewrite filter_cons, decide_False by (apply HP; left).
  apply IH. intros y Hy. apply HP. by right.
Qed.

Lemma filter_all {A} (P : A → Prop) `{!∀ x, Decision (P x)} (l : list A) :
  (∀ x, x ∈ l → P x) → filter P l = l.
Proof.
  induction l as [|x l IH]; intros HP; [done|].
  rewrite filter_cons, decide_True by (apply HP; left).
  f_equal. apply IH. intros y Hy. apply HP. by right.
Qed.

(** What the filter on [currentIds] does ensure: ids that are distinct in
    the stored collection and distinct in the file are distinct in the
    merged collection. *)
Lemma merged_ids_NoDup (A B : list Bookmark) :
  NoDup (id <$> A) → NoDup (id <$> B) →
  NoDup (id <$> (A ++ filter (λ b, id b ∉ id <$> A) B)).
Proof.
  intros HA HB. rewrite fmap_app. apply NoDup_app. split_and!; [done| |].
  - intros s Hs (b & -> & Hb)%list_elem_of_fmap.
    by apply list_elem_of_filter in Hb as [Hn _].
  - apply (sublist_NoDup _ (id <$> B)); [exact HB|].
    apply fmap_sublist, sublist_filter.
Qed.

Section ImportFile.
Variable JSON_parse : string → option JsVal.

Local Abbreviation handleImportFile := (handleImportFile JSON_parse).

(** The handler on a file that parses. *)
Lemma handleImportFile_parsed (content : string) (parsed : JsVal)
    (confirmed : bool) (st : AppState) :
  content ≠ "" → JSON_parse content = Some parsed →
  handleImportFile content confirmed st =
  match importParsed parsed confirmed st with
  | Ok r => r
  | Throw _ => (st, [AlertParseError])
  end.
Proof.
  intros Hc Hp. unfold handleImportFile.
  apply String.eqb_neq in Hc. by rewrite Hc, Hp.
Qed.

(** An accepted import of typed bookmarks into a typed collection. *)
Lemma handleImportFile_toJs (A B : list Bookmark) (content : string)
    (st : AppState) :
  content ≠ "" → JSON_parse content = Some (JArr (toJs <$> B)) →
  bookmarks st = toJs <$> A →
  (∀ b, b ∈ B → well_formed b) →
  handleImportFile content true st =
  (setIsSettingsOpen false
     (setBookmarks (toJs <$> (A ++ filter (λ b, id b ∉ id <$> A) B)) st),
   [AlertImported (length (filter (λ b, id b ∉ id <$> A) B))]).
Proof.
  intros Hc Hp HA HB. rewrite (handleImportFile_parsed _ _ _ _ Hc Hp).
  unfold importParsed. rewrite every_valid.
  - simpl. rewrite HA, mergeBookmarks_toJs. simpl. by rewrite length_fmap.
  - intros x (b & -> & Hb)%list_elem_of_fmap. by apply valid_shape_toJs, HB.
Qed.

(** No failure touches the state: whatever the file, either the import
    went through and says how many bookmarks it added, or the state is the
    one before. *)
Lemma handleImportFile_atomic (content : string) (confirmed : bool)
    (st : AppState) :
  fst (handleImportFile content confirmed st) = st ∨
  ∃ n, snd (handleImportFile content confirmed st) = [AlertImported n].
Proof.
  unfold handleImportFile.
  destruct (String.eqb content ""); [by left|].
  destruct (JSON_parse content) as [parsed|]; [|by left].
  unfold importParsed. destruct parsed; try by left.
  destruct (every validElement elems) as [[|]|e]; simpl; try by left.
  destruct confirmed; [|by left].
  destruct (mergeBookmarks _ _) as [[newBookmarks updated]|e]; simpl;
    [right; by eexists|by left].
Qed.

(** C8. Importing a collection of well-formed bookmarks into itself adds
    nothing: the message counts 0 new bookmarks and the stored collection
    is the same.  Importing well-formed bookmarks [B] whose ids are not in
    the stored collection [A] adds all of them: the message counts
    [length B] and the stored collection is [A] followed by [B], of length
    [length A + length B]. *)
Theorem merge_laws (A B : list Bookmark) (content : string) (st : AppState) :
  content ≠ "" → JSON_parse content = Some (JArr (toJs <$> B)) →
  bookmarks st = toJs <$> A →
  (∀ b, b ∈ B → well_formed b) →
  (B = A →
   ∃ st', handleImportFile content true st = (st', [AlertImported 0]) ∧
          bookmarks st' = bookmarks st) ∧
  ((∀ b, b ∈ B → id b ∉ id <$> A) →
   ∃ st', handleImportFile content true st = (st', [AlertImported (length B)]) ∧
          bookmarks st' = toJs <$> (A ++ B) ∧
          length (bookmarks st') = length A + length B).
Proof.
  intros Hc Hp HA HB.
  rewrite (handleImportFile_toJs A B content st Hc Hp HA HB). split.
  - intros ->. rewrite filter_none.
    + eexists. split; [done|]. simpl. by rewrite app_nil_r.
    + intros b Hb Hn. apply Hn. by apply list_elem_of_fmap_2.
  - intros Hd. rewrite filter_all by done.
    eexists. split_and!; [done..|]. simpl.
    by rewrite length_fmap, length_app.
Qed.

(** What the validation does answer. A file whose content parses to a value that is
    not an array is refused with the not-an-array message; one that parses
    to an array without [null] among its elements, one of which lacks an
    id, lacks a url or has a creation time that is not a number, is refused
    with the invalid-shape message; and whenever the import does not go
    through, the state is the one before. *)
Theorem import_rejects (content : string) (parsed : JsVal) (confirmed : bool)
    (st : AppState) :
  content ≠ "" → JSON_parse content = Some parsed →
  ((∀ elems, parsed ≠ JArr elems) →
   handleImportFile content confirmed st = (st, [AlertNotArray])) ∧
  (∀ elems, parsed = JArr elems →
     (∀ b, b ∈ elems → ¬ nullish b) →
     (∃ b, b ∈ elems ∧ ¬ valid_shape b) →
     handleImportFile content confirmed st = (st, [AlertInvalidFile])) ∧
  (fst (handleImportFile content confirmed st) = st ∨
   ∃ n, snd (handleImportFile content confirmed st) = [AlertImported n]).
Proof.
  intros Hc Hp. split_and!.
  - intros Hna. rewrite (handleImportFile_parsed _ _ _ _ Hc Hp).
    destruct parsed; try done. by destruct (Hna elems).
  - intros elems -> Hn Hbad. rewrite (handleImportFile_parsed _ _ _ _ Hc Hp).
    unfold importParsed. by rewrite every_invalid.
  - apply handleImportFile_atomic.
Qed.

End ImportFile.

(** * Concrete runs *)

Lemma ex_collection_well_formed (b : Bookmark) :
  b ∈ ex_collection → well_formed b.
Proof.
  unfold ex_collection. rewrite !elem_of_cons, elem_of_nil.
  intros [->|[->|[->|[]]]]; by split.
Qed.

Lemma ex_ids_NoDup : NoDup (id <$> ex_collection).
Proof. apply (bool_decide_unpack _). by vm_compute. Qed.

(** C1, at two incoming elements with one id: both are accepted by the
    validation, neither id is in the stored collection, the import counts
    two new bookmarks and the stored collection then holds the id twice. *)
Theorem import_keeps_duplicate_ids :
  let incoming := [ex_bare "9"; ex_bare "9"] in
  let r := handleImportFile (ex_parse (JArr incoming)) "[...]" true ex_state in
  NoDup (id <$> ex_collection) ∧
  every validElement incoming = Ok true ∧
  snd r = [AlertImported 2] ∧
  map_elems (λ b, get b f_id) (bookmarks (fst r)) =
    Ok [JStr "1"; JStr "2"; JStr "3"; JStr "9"; JStr "9"] ∧
  ¬ NoDup [JStr "1"; JStr "2"; JStr "3"; JStr "9"; JStr "9"].
Proof.
  split_and!; [apply ex_ids_NoDup|done..|].
  rewrite !NoDup_cons. intros (_ & _ & _ & H & _). apply H. left.
Qed.

(** C10, at an incoming element without title: the validation accepts it,
    the import adds it, and the view of the merged collection throws a
    [TypeError], whatever the engine's comparison functions are. *)
Theorem import_then_view_throws
    (localeCompare : string → JsVal → Z)
    (ToNumber_nonprimitive : JsVal → result (option Z)) :
  let r := handleImportFile (ex_parse (JArr [ex_bare "1"])) "[...]" true ex_empty in
  validElement (ex_bare "1") = Ok true ∧
  snd r = [AlertImported 1] ∧
  bookmarks (fst r) = [ex_bare "1"] ∧
  view localeCompare ToNumber_nonprimitive (fst r) = Throw TypeError ∧
  filteredBookmarks localeCompare ToNumber_nonprimitive (fst r) 1%positive
    {[ 1%positive := bookmarks (fst r) ]} = Throw TypeError.
Proof. by split_and!. Qed.

(** C6, at a target id that is not in the collection: the handler moves
    the dragged bookmark to the end. *)
Lemma handleDragEnd_absent_target_moves :
  ("zz" ∉ id <$> ex_collection) ∧
  ∃ st', handleDragEnd (mkDragEndEvent (UStr "1") (Some (UStr "zz"))) ex_state
           = Ok st' ∧
         bookmarks st' = toJs <$> [ex_bar; ex_baz; ex_foo] ∧
         bookmarks st' ≠ bookmarks ex_state.
Proof.
  split.
  - apply (bool_decide_unpack _). by vm_compute.
  - eexists. split_and!; [reflexivity|reflexivity|].
    vm_compute. intros H. discriminate H.
Qed.

(** What the validation answers at its first invalid element: with valid
    elements before it, an element that is not [null] and lacks an id, a
    url or a numeric creation time gives the invalid-file message, and
    [null] there gives the parse-error message; the state is the same in
    both cases. *)
Lemma import_first_invalid (JSON_parse : string → option JsVal)
    (content : string) (pre post : list JsVal) (b : JsVal) (confirmed : bool)
    (st : AppState) :
  content ≠ "" → JSON_parse content = Some (JArr (pre ++ b :: post)) →
  (∀ a, a ∈ pre → valid_shape a) → ¬ valid_shape b →
  handleImportFile JSON_parse content confirmed st =
  (st, [match b with
        | JNull | JUndefined => AlertParseError
        | _ => AlertInvalidFile
        end]).
Proof.
  intros Hc Hp Hpre Hb. rewrite (handleImportFile_parsed _ _ _ _ _ Hc Hp).
  unfold importParsed.
  assert (every validElement (pre ++ b :: post) =
          match b with
          | JNull | JUndefined => Throw TypeError
          | _ => Ok false
          end) as ->.
  { clear Hp. induction pre as [|a pre IH]; simpl.
    - assert (¬ nullish b → validElement b = Ok false) as Hf.
      { intros Hn. destruct (validElement_Ok b Hn) as [v Hv]. rewrite Hv.
        destruct v; [|done]. by apply validElement_spec in Hv. }
      unfold nullish in Hf.
      destruct b; try done; rewrite Hf; try done; by intros [|].
    - rewrite (proj2 (validElement_spec a)) by (apply Hpre; left). simpl.
      apply IH. intros c Hin. apply Hpre. by right. }
  by destruct b.
Qed.

(** C9, at an array whose only element is [null]: the element has no id,
    and the message is the one of a parse error, not the invalid-shape
    one that an element such as [5] or an empty object gets. *)
Lemma import_null_element_parse_error :
  ¬ valid_shape JNull ∧
  handleImportFile (ex_parse (JArr [JNull])) "[null]" true ex_state
    = (ex_state, [AlertParseError]) ∧
  snd (handleImportFile (ex_parse (JArr [JNull])) "[null]" true ex_state)
    ≠ [AlertInvalidFile].
Proof.
  split_and!; [|done|done].
  by intros (i & u & n & H & _).
Qed.

(** The sibling elements: a number and an empty object, which lack an id
    as [null] does, are answered with the invalid-shape message. *)
Lemma import_invalid_siblings :
  handleImportFile (ex_parse (JArr [JNum 5])) "[5]" true ex_state
    = (ex_state, [AlertInvalidFile]) ∧
  handleImportFile (ex_parse (JArr [JObj []])) "[{}]" true ex_state
    = (ex_state, [AlertInvalidFile]) ∧
  handleImportFile (ex_parse (JArr [JObj []; JNull])) "[{},null]" true ex_state
    = (ex_state, [AlertInvalidFile]).
Proof. by split_and!. Qed.

(** * Further properties of the handlers *)

(** ** Saving a bookmark *)

Lemma get_toJs_id (b : Bookmark) : get (toJs b) f_id = Ok (JStr (id b)).
Proof. done. Qed.

Lemma strict_eq_string_JStr (s t : string) :
  strict_eq_string (JStr s) t = bool_decide (s = t).
Proof.
  simpl. destruct (String.eqb_spec s t).
  - by rewrite bool_decide_eq_true_2.
  - by rewrite bool_decide_eq_false_2.
Qed.

Lemma updateCallback_toJs (editing : Bookmark) (d : BookmarkData) (b : Bookmark) :
  updateCallback editing d (toJs b) = Ok (toJs (applyEdit editing d b)).
Proof.
  unfold updateCallback, applyEdit. rewrite get_toJs_id, bind_Ok.
  rewrite strict_eq_string_JStr. case_decide.
  - by rewrite bool_decide_eq_true_2.
  - by rewrite bool_decide_eq_false_2.
Qed.

Lemma map_elems_update_toJs (editing : Bookmark) (d : BookmarkData)
    (C : list Bookmark) :
  map_elems (updateCallback editing d) (toJs <$> C) =
  Ok (toJs <$> (applyEdit editing d <$> C)).
Proof.
  induction C as [|b C IH]; [done|].
  rewrite !fmap_cons. cbn [map_elems]. by rewrite updateCallback_toJs, IH.
Qed.

Lemma id_applyEdit (editing : Bookmark) (d : BookmarkData) (b : Bookmark) :
  id (applyEdit editing d b) = id b ∧
  createdAt (applyEdit editing d b) = createdAt b.
Proof. unfold applyEdit. by case_decide. Qed.

Lemma filterCallback_newBookmark (st : AppState) (d : BookmarkData)
    (uuid : string) (now : Z) :
  filterCallback st (newBookmark d uuid now) =
  filterCallback st (toJs (created d uuid now)).
Proof. done. Qed.

Lemma handleSaveBookmark_new (d : BookmarkData) (uuid : string) (now : Z)
    (ui : UiState) :
  editingBookmark ui = None →
  handleSaveBookmark d uuid now ui =
  Ok (setEditingBookmark None
        (setIsModalOpen false
           (setApp (setBookmarks (newBookmark d uuid now :: bookmarks (app ui))
                      (app ui)) ui))).
Proof. intros He. unfold handleSaveBookmark. by rewrite He. Qed.

(** X1. Saving while no bookmark is being edited puts one new bookmark in
    front of the stored ones, which stay as they are; the new bookmark has
    the id and the creation time the environment gave and the four fields of
    the form, the filter treats it as it treats the typed bookmark with
    these fields, and the form is closed. *)
Theorem handleSaveBookmark_adds (d : BookmarkData) (uuid : string) (now : Z)
    (ui : UiState) :
  editingBookmark ui = None →
  ∃ ui' nb,
    handleSaveBookmark d uuid now ui = Ok ui' ∧
    bookmarks (app ui') = nb :: bookmarks (app ui) ∧
    get nb f_id = Ok (JStr uuid) ∧
    get nb f_createdAt = Ok (JNum now) ∧
    get nb f_url = Ok (JStr (data_url d)) ∧
    get nb f_title = Ok (JStr (data_title d)) ∧
    get nb f_domain = Ok (JStr (data_domain d)) ∧
    get nb f_category = Ok (JStr (CategoryType_str (data_category d))) ∧
    (∀ st, filterCallback st nb =
           Ok (keeps (selectedCategory st) (searchQuery st) (created d uuid now))) ∧
    isModalOpen ui' = false ∧ editingBookmark ui' = None ∧
    itemToDelete ui' = itemToDelete ui ∧ theme ui' = theme ui.
Proof.
  intros He. rewrite (handleSaveBookmark_new d uuid now ui He).
  eexists _, (newBookmark d uuid now). split_and!; try done.
  intros st. by rewrite filterCallback_newBookmark, filterCallback_toJs.
Qed.

(** X2. Saving while the bookmark [editing] is being edited, on a collection
    of bookmarks: every bookmark with the id of [editing] takes the four
    fields of the form and keeps its id, its creation time and its place;
    the others are untouched; the sequence of ids and the length are the
    same, and the form is closed. *)
Theorem handleSaveBookmark_updates (C : list Bookmark) (editing : Bookmark)
    (d : BookmarkData) (uuid : string) (now : Z) (ui : UiState) :
  bookmarks (app ui) = toJs <$> C →
  editingBookmark ui = Some editing →
  ∃ ui',
    handleSaveBookmark d uuid now ui = Ok ui' ∧
    bookmarks (app ui') = toJs <$> (applyEdit editing d <$> C) ∧
    id <$> (applyEdit editing d <$> C) = id <$> C ∧
    createdAt <$> (applyEdit editing d <$> C) = createdAt <$> C ∧
    length (bookmarks (app ui')) = length (bookmarks (app ui)) ∧
    (∀ k b, C !! k = Some b → id b ≠ id editing →
            bookmarks (app ui') !! k = Some (toJs b)) ∧
    (∀ k b, C !! k = Some b → id b = id editing →
            bookmarks (app ui') !! k =
            Some (toJs (mkBookmark (id b) (data_url d) (data_title d)
                          (data_domain d) (data_category d) (createdAt b)))) ∧
    isModalOpen ui' = false ∧ editingBookmark ui' = None.
Proof.
  intros HC He. unfold handleSaveBookmark. rewrite He, HC.
  rewrite map_elems_update_toJs. simpl. eexists. split_and!; try done.
  - rewrite <-list_fmap_compose. apply list_fmap_ext. intros k b _. simpl.
    by destruct (id_applyEdit editing d b).
  - rewrite <-list_fmap_compose. apply list_fmap_ext. intros k b _. simpl.
    by destruct (id_applyEdit editing d b).
  - simpl. by rewrite !length_fmap.
  - intros k b Hk Hne. simpl. rewrite !list_lookup_fmap, Hk. simpl.
    unfold applyEdit. by rewrite decide_False.
  - intros k b Hk Heq. simpl. rewrite !list_lookup_fmap, Hk. simpl.
    unfold applyEdit. by rewrite decide_True.
Qed.

Lemma map_elems_update_absent (editing : Bookmark) (d : BookmarkData)
    (l : list JsVal) :
  (∀ b, b ∈ l →
        ∃ i, get b f_id = Ok i ∧ strict_eq_string i (id editing) = false) →
  map_elems (updateCallback editing d) l = Ok l.
Proof.
  induction l as [|b l IH]; intros Hids; [done|].
  cbn [map_elems]. destruct (Hids b) as (i & Hi & Hs); [left|].
  assert (updateCallback editing d b = Ok b) as ->.
  { unfold updateCallback. by rewrite Hi, bind_Ok, Hs. }
  rewrite IH; [done|]. intros c Hc. apply Hids. by right.
Qed.

(** X3. An edit of a bookmark whose id no stored element has is a silent
    no-op on the collection, whatever the elements are, as long as their
    ids can be read: the collection is the same and the form is closed. *)
Theorem handleSaveBookmark_missing_id (editing : Bookmark) (d : BookmarkData)
    (uuid : string) (now : Z) (ui : UiState) :
  editingBookmark ui = Some editing →
  (∀ b, b ∈ bookmarks (app ui) →
        ∃ i, get b f_id = Ok i ∧ strict_eq_string i (id editing) = false) →
  ∃ ui',
    handleSaveBookmark d uuid now ui = Ok ui' ∧
    bookmarks (app ui') = bookmarks (app ui) ∧
    isModalOpen ui' = false ∧ editingBookmark ui' = None.
Proof.
  intros He Hids. unfold handleSaveBookmark.
  rewrite He, (map_elems_update_absent _ _ _ Hids). simpl.
  eexists. by split_and!.
Qed.

(** ** Deleting a bookmark *)

Lemma deleteCallback_toJs (s : string) (b : Bookmark) :
  deleteCallback s (toJs b) = Ok (bool_decide (id b ≠ s)).
Proof.
  unfold deleteCallback. rewrite get_toJs_id, bind_Ok, strict_eq_string_JStr.
  by rewrite bool_decide_not.
Qed.

Lemma filter_elems_delete_toJs (s : string) (C : list Bookmark) :
  filter_elems (deleteCallback s) (toJs <$> C) =
  Ok (toJs <$> filter (λ b, id b ≠ s) C).
Proof.
  induction C as [|b C IH]; [done|].
  rewrite fmap_cons. cbn [filter_elems].
  rewrite deleteCallback_toJs, IH, filter_cons.
  destruct (decide (id b ≠ s)) as [E|E].
  - by rewrite bool_decide_eq_true_2.
  - by rewrite bool_decide_eq_false_2.
Qed.

Lemma length_filter_other_id (s : string) (C : list Bookmark) :
  NoDup (id <$> C) → s ∈ id <$> C →
  S (length (filter (λ b, id b ≠ s) C)) = length C.
Proof.
  induction C as [|b C IH]; intros HN Hs.
  { by apply elem_of_nil in Hs. }
  rewrite fmap_cons in HN, Hs. apply NoDup_cons in HN as [Hb HN].
  rewrite filter_cons. destruct (decide (id b = s)) as [E|E].
  - rewrite decide_False by (intros Hne; by apply Hne).
    rewrite filter_all; [done|]. intros c Hc Hcs. apply Hb. rewrite E, <-Hcs.
    by apply list_elem_of_fmap_2.
  - rewrite decide_True by done. simpl. f_equal. apply IH; [done|].
    apply elem_of_cons in Hs as [Hs|Hs]; [by symmetry in Hs|done].
Qed.

Lemma confirmDelete_toJs (C : list Bookmark) (s : string) (ui : UiState) :
  bookmarks (app ui) = toJs <$> C → itemToDelete ui = Some s → s ≠ "" →
  confirmDelete ui =
  Ok (setItemToDelete None
        (setApp (setBookmarks (toJs <$> filter (λ b, id b ≠ s) C) (app ui)) ui)).
Proof.
  intros HC Hi Hs. unfold confirmDelete. rewrite Hi.
  apply String.eqb_neq in Hs. by rewrite Hs, HC, filter_elems_delete_toJs.
Qed.

Lemma filter_other_id_gone (s : string) (C : list Bookmark) :
  s ∉ id <$> filter (λ b, id b ≠ s) C.
Proof.
  intros (b & E & Hb)%list_elem_of_fmap.
  by apply list_elem_of_filter in Hb as [Hne _].
Qed.

Lemma filter_other_id_absent (s : string) (C : list Bookmark) :
  s ∉ id <$> C → filter (λ b, id b ≠ s) C = C.
Proof.
  intros Hn. apply filter_all. intros b Hb E. apply Hn. rewrite <-E.
  by apply list_elem_of_fmap_2.
Qed.

(** X4. Confirming the deletion of the id [s] (not empty) on a collection
    of bookmarks removes exactly the bookmarks with that id: the others
    stay, in their order; the id is gone afterwards; an id that no
    bookmark has leaves the collection as it is; with distinct ids and [s]
    among them the collection is one shorter; the confirmation is
    cleared. *)
Theorem confirmDelete_removes (C : list Bookmark) (s : string) (ui : UiState) :
  bookmarks (app ui) = toJs <$> C →
  itemToDelete ui = Some s → s ≠ "" →
  ∃ ui' R,
    confirmDelete ui = Ok ui' ∧
    bookmarks (app ui') = toJs <$> R ∧
    R = filter (λ b, id b ≠ s) C ∧
    R `sublist_of` C ∧
    (∀ b, b ∈ R ↔ b ∈ C ∧ id b ≠ s) ∧
    (s ∉ id <$> R) ∧
    (s ∉ id <$> C → R = C) ∧
    (NoDup (id <$> C) → s ∈ id <$> C → S (length R) = length C) ∧
    itemToDelete ui' = None ∧ editingBookmark ui' = editingBookmark ui.
Proof.
  intros HC Hi Hs. rewrite (confirmDelete_toJs C s ui HC Hi Hs).
  eexists _, _. split_and!; try done.
  - apply sublist_filter.
  - intros b. rewrite list_elem_of_filter. split; by intros [? ?].
  - apply filter_other_id_gone.
  - apply filter_other_id_absent.
  - apply length_filter_other_id.
Qed.

(** The guard of [confirmDelete] reads the id as a condition: after a
    click on the delete button of a bookmark whose id is the empty string,
    confirming changes nothing, and the confirmation stays pending; with no
    pending confirmation, confirming changes nothing either. *)
Theorem confirmDelete_empty_id (ui : UiState) :
  confirmDelete (handleDeleteClick "" ui) = Ok (handleDeleteClick "" ui) ∧
  itemToDelete (handleDeleteClick "" ui) = Some "" ∧
  confirmDelete (setItemToDelete None ui) = Ok (setItemToDelete None ui).
Proof. done. Qed.

(** X5. Deleting is idempotent: once the id [s] has been deleted from a
    collection of bookmarks, deleting it again leaves the collection as the
    first deletion left it. *)
Theorem confirmDelete_twice (C : list Bookmark) (s : string) (ui : UiState) :
  bookmarks (app ui) = toJs <$> C → s ≠ "" →
  ∃ ui1 ui2,
    confirmDelete (handleDeleteClick s ui) = Ok ui1 ∧
    confirmDelete (handleDeleteClick s ui1) = Ok ui2 ∧
    bookmarks (app ui2) = bookmarks (app ui1).
Proof.
  intros HC Hs.
  rewrite (confirmDelete_toJs C s (handleDeleteClick s ui) HC eq_refl Hs).
  set (R := filter (λ b, id b ≠ s) C).
  set (ui1 := setItemToDelete None
                (setApp (setBookmarks (toJs <$> R) (app (handleDeleteClick s ui)))
                   (handleDeleteClick s ui))).
  exists ui1. eexists. split; [done|].
  assert (H1 : bookmarks (app (handleDeleteClick s ui1)) = toJs <$> R) by done.
  rewrite (confirmDelete_toJs R s (handleDeleteClick s ui1) H1 eq_refl Hs).
  split; [done|]. simpl.
  by rewrite (filter_other_id_absent s R (filter_other_id_gone s C)).
Qed.

(** X6. Adding a bookmark and then deleting it by its id gives the
    collection back, when the id is not empty and no stored bookmark had
    it. *)
Theorem add_then_delete_restores (C : list Bookmark) (d : BookmarkData)
    (uuid : string) (now : Z) (ui : UiState) :
  bookmarks (app ui) = toJs <$> C →
  editingBookmark ui = None →
  uuid ≠ "" → uuid ∉ id <$> C →
  ∃ ui1 ui2,
    handleSaveBookmark d uuid now ui = Ok ui1 ∧
    length (bookmarks (app ui1)) = S (length C) ∧
    confirmDelete (handleDeleteClick uuid ui1) = Ok ui2 ∧
    bookmarks (app ui2) = bookmarks (app ui).
Proof.
  intros HC He Hu Hfresh. rewrite (handleSaveBookmark_new d uuid now ui He).
  eexists _, _. split; [done|]. split.
  { cbn [app setEditingBookmark setIsModalOpen setApp bookmarks setBookmarks].
    cbn [length]. by rewrite HC, length_fmap. }
  unfold confirmDelete.
  cbn [itemToDelete handleDeleteClick setItemToDelete app setEditingBookmark
       setIsModalOpen setApp bookmarks setBookmarks].
  apply String.eqb_neq in Hu. rewrite Hu. cbn [filter_elems].
  assert (deleteCallback uuid (newBookmark d uuid now) = Ok false) as ->.
  { unfold deleteCallback.
    change (get (newBookmark d uuid now) f_id) with (Ok (JStr uuid)).
    rewrite bind_Ok, strict_eq_string_JStr. by rewrite bool_decide_eq_true_2. }
  rewrite HC, filter_elems_delete_toJs. simpl. split; [done|].
  by rewrite (filter_other_id_absent uuid C Hfresh).
Qed.

(** ** Theme, clearing, the drag overlay *)

(** X7. Whatever string the theme cell holds, one toggle makes it 'dark'
    or 'light'; from then on two toggles give the same state back, and
    from 'dark' or 'light' they do so at once; the toggle touches nothing
    but the theme. *)
Theorem toggleTheme_involutive (ui : UiState) :
  (theme (toggleTheme ui) = "dark" ∨ theme (toggleTheme ui) = "light") ∧
  toggleTheme (toggleTheme (toggleTheme ui)) = toggleTheme ui ∧
  (theme ui = "dark" ∨ theme ui = "light" → toggleTheme (toggleTheme ui) = ui) ∧
  (theme ui ≠ "dark" → theme (toggleTheme ui) = "dark") ∧
  app (toggleTheme ui) = app ui ∧
  isModalOpen (toggleTheme ui) = isModalOpen ui ∧
  editingBookmark (toggleTheme ui) = editingBookmark ui ∧
  itemToDelete (toggleTheme ui) = itemToDelete ui.
Proof.
  destruct ui as [a t m e i]. unfold toggleTheme, setTheme. simpl.
  destruct (String.eqb_spec t "dark") as [->|Hd]; simpl.
  - split_and!; try done; auto.
  - split_and!; try done; auto. intros [->| ->]; done.
Qed.

(** Clearing, once confirmed, empties the collection and closes the
    settings, and the grid area then shows the empty state whatever the
    category, the query and the sort option; declined, it changes
    nothing. *)
Theorem handleClearAll_empties
    (localeCompare : string → JsVal → Z)
    (ToNumber_nonprimitive : JsVal → result (option Z)) (st : AppState) :
  bookmarks (handleClearAll true st) = [] ∧
  isSettingsOpen (handleClearAll true st) = false ∧
  selectedCategory (handleClearAll true st) = selectedCategory st ∧
  searchQuery (handleClearAll true st) = searchQuery st ∧
  sortOption (handleClearAll true st) = sortOption st ∧
  screen localeCompare ToNumber_nonprimitive (handleClearAll true st)
    = Ok EmptyState ∧
  handleClearAll false st = st.
Proof. by split_and!. Qed.

(** ** Reordering, on any collection *)

Lemma findIndex_from_range (p : JsVal → result bool) (l : list JsVal) (k z : Z) :
  findIndex_from p l k = Ok z →
  z = (-1)%Z ∨ (k ≤ z < k + Z.of_nat (length l))%Z.
Proof.
  revert k. induction l as [|x l IH]; intros k H; simpl in H.
  - injection H as <-. by left.
  - inv_bind H. destruct x0.
    + injection H as <-. right. simpl. lia.
    + destruct (IH _ H) as [->|Hr]; [by left|]. right. simpl. lia.
Qed.

Lemma Array_splice_last (l items : list JsVal) (d : Z) :
  l ≠ [] →
  Array_splice l (-1) d items =
  Array_splice l (Z.of_nat (length l - 1)) d items.
Proof.
  intros Hl. unfold Array_splice.
  assert (1 ≤ length l)%nat by (destruct l; [done|simpl; lia]).
  assert ((-1 <? 0)%Z = true) as -> by done.
  assert ((Z.of_nat (length l - 1) <? 0)%Z = false) as ->
    by (apply Z.ltb_ge; lia).
  replace (Z.max (Z.of_nat (length l) + -1) 0)
    with (Z.min (Z.of_nat (length l - 1)) (Z.of_nat (length l))) by lia.
  done.
Qed.

Lemma arrayMove_resolved (l : list JsVal) (from to : Z) :
  l ≠ [] →
  from = (-1)%Z ∨ (0 ≤ from < Z.of_nat (length l))%Z →
  to = (-1)%Z ∨ (0 ≤ to < Z.of_nat (length l))%Z →
  arrayMove l from to = remove_reinsert (resolved l from) (resolved l to) l ∧
  resolved l from < length l ∧ resolved l to < length l.
Proof.
  intros Hl Hf Ht.
  assert (1 ≤ length l)%nat by (destruct l; [done|simpl; lia]).
  assert (Hrf : resolved l from < length l).
  { unfold resolved. destruct Hf as [->|Hf]; simpl; [lia|].
    assert ((from <? 0)%Z = false) as -> by lia. lia. }
  assert (Hrt : resolved l to < length l).
  { unfold resolved. destruct Ht as [->|Ht]; simpl; [lia|].
    assert ((to <? 0)%Z = false) as -> by lia. lia. }
  split; [|done]. rewrite <-arrayMove_in_range by done.
  unfold arrayMove.
  assert ((Z.of_nat (resolved l to) <? 0)%Z = false) as -> by lia.
  assert ((if (to <? 0)%Z then (Z.of_nat (length l) + to)%Z else to)
          = Z.of_nat (resolved l to)) as ->.
  { unfold resolved. destruct Ht as [->|Ht]; simpl; [lia|].
    assert ((to <? 0)%Z = false) as -> by lia. lia. }
  assert (Array_splice l from 1 [] = Array_splice l (Z.of_nat (resolved l from)) 1 [])
    as ->; [|done].
  unfold resolved. destruct Hf as [->|Hf]; simpl.
  - by apply Array_splice_last.
  - assert ((from <? 0)%Z = false) as -> by lia. f_equal. lia.
Qed.

(** X8. Whatever a non-empty collection holds and whatever the two ids
    are, a drag end that completes stores a permutation of the collection:
    no element is lost, none is duplicated, the length is the same, and the
    drag is over. *)
Theorem handleDragEnd_permutes (ev : DragEndEvent) (st st' : AppState) :
  bookmarks st ≠ [] →
  handleDragEnd ev st = Ok st' →
  bookmarks st' ≡ₚ bookmarks st ∧
  length (bookmarks st') = length (bookmarks st) ∧
  activeId st' = None.
Proof.
  intros Hne H. destruct ev as [a [t|]].
  - destruct (decide (a = t)) as [->|Hat].
    + rewrite handleDragEnd_same in H. by injection H as <-.
    + rewrite (handleDragEnd_distinct _ t) in H by done.
      inv_bind H. inv_bind H. injection H as <-. simpl.
      apply findIndex_from_range in Hx, Hx0.
      destruct (arrayMove_resolved (bookmarks st) x x0 Hne) as (-> & _ & _);
        [destruct Hx; [by left|right; lia]|destruct Hx0; [by left|right; lia]|].
      split_and!.
      * apply remove_reinsert_Permutation.
      * apply length_remove_reinsert.
      * unfold customSort. by case_decide.
  - rewrite handleDragEnd_no_target in H. by injection H as <-.
Qed.

(** X9. On an empty collection a drag end with a target other than the
    source stores an array that holds [undefined], on which the view
    throws a [TypeError]. *)
Theorem handleDragEnd_on_empty
    (localeCompare : string → JsVal → Z)
    (ToNumber_nonprimitive : JsVal → result (option Z))
    (ev : DragEndEvent) (t : UniqueIdentifier) (st : AppState) :
  bookmarks st = [] → over ev = Some t → active ev ≠ t →
  ∃ st', handleDragEnd ev st = Ok st' ∧
         bookmarks st' = [JUndefined] ∧
         view localeCompare ToNumber_nonprimitive st' = Throw TypeError.
Proof.
  intros Hb Ho Hne. rewrite (handleDragEnd_distinct _ _ _ Ho Hne), Hb. simpl.
  eexists. split_and!; [done..|].
  unfold view, filterCallback. simpl. by case_decide.
Qed.

Lemma find_toJs (s : string) (C : list Bookmark) :
  find (has_id (UStr s)) (toJs <$> C) =
  Ok (match list_find (λ b, id b = s) C with
      | Some (_, b) => toJs b
      | None => JUndefined
      end).
Proof.
  induction C as [|b C IH]; [done|].
  rewrite fmap_cons. cbn [find list_find]. rewrite has_id_toJs, bind_Ok.
  case_decide as E.
  - by rewrite bool_decide_eq_true_2.
  - rewrite bool_decide_eq_false_2 by done. rewrite IH.
    by destruct (list_find _ C) as [[i x]|].
Qed.

(** X10. In a collection of bookmarks with distinct ids, once the drag of a
    bookmark with a non-empty id has started, the bookmark shown in the drag
    overlay is that bookmark; for an id that no bookmark has it is
    [undefined]; and after any drag end that completes it is [null]. *)
Theorem activeBookmark_follows_drag (C : list Bookmark) (b : Bookmark)
    (st : AppState) :
  bookmarks st = toJs <$> C →
  NoDup (id <$> C) → b ∈ C → id b ≠ "" →
  activeBookmark (handleDragStart (UStr (id b)) st) = Ok (toJs b) ∧
  (∀ s, s ≠ "" → s ∉ id <$> C →
        activeBookmark (handleDragStart (UStr s) st) = Ok JUndefined) ∧
  (∀ ev st', handleDragEnd ev (handleDragStart (UStr (id b)) st) = Ok st' →
             activeBookmark st' = Ok JNull).
Proof.
  intros HC HN Hb Hid. split_and!.
  - unfold activeBookmark. simpl. apply String.eqb_neq in Hid. rewrite Hid. simpl.
    apply list_elem_of_lookup in Hb as [i Hi].
    by rewrite HC, find_toJs, (list_find_id C i b HN Hi).
  - intros s Hs Hn. unfold activeBookmark. simpl.
    apply String.eqb_neq in Hs. rewrite Hs. simpl. rewrite HC, find_toJs.
    destruct (list_find _ C) as [[i x]|] eqn:E; [|done].
    apply list_find_Some in E as (Hx & <- & _). exfalso. apply Hn.
    apply list_elem_of_fmap_2. by eapply list_elem_of_lookup_2.
  - intros ev st' H. unfold activeBookmark.
    destruct ev as [a [t|]].
    + destruct (decide (a = t)) as [->|Hat].
      * rewrite handleDragEnd_same in H. by injection H as <-.
      * rewrite (handleDragEnd_distinct _ t) in H by done.
        inv_bind H. inv_bind H. injection H as <-. simpl.
        unfold customSort. by case_decide.
    + rewrite handleDragEnd_no_target in H. by injection H as <-.
Qed.

Section RenderingProperties.
Variable localeCompare : string → JsVal → Z.
Variable ToNumber_nonprimitive : JsVal → result (option Z).

Local Abbreviation view := (view localeCompare ToNumber_nonprimitive).
Local Abbreviation screen := (screen localeCompare ToNumber_nonprimitive).
Local Abbreviation sortableItems :=
  (sortableItems localeCompare ToNumber_nonprimitive).

(** X11. For a collection [C] of bookmarks the grid area shows the empty
    state exactly when [C] is empty, "no matches" exactly when [C] is not
    empty and no bookmark passes the filter, and otherwise the cards of the
    view, of which there is at least one. *)
Theorem screen_branches (C : list Bookmark) (st : AppState) :
  bookmarks st = toJs <$> C →
  ∃ sc,
    screen st = Ok sc ∧
    (sc = EmptyState ↔ C = []) ∧
    (sc = NoMatches ↔
       C ≠ [] ∧ ∀ b, b ∈ C →
                  ¬ (matchesCategory (selectedCategory st) b ∧
                     matchesSearch (searchQuery st) b)) ∧
    (∀ cards, sc = Grid cards → cards ≠ [] ∧ view st = Ok cards).
Proof.
  intros HC. destruct (view_toJs localeCompare ToNumber_nonprimitive st C HC)
    as (V & HV & HP).
  unfold screen. rewrite HV, HC. simpl. rewrite !length_fmap.
  eexists. split; [done|].
  assert (Hnone : V = [] ↔ ∀ b, b ∈ C →
            ¬ (matchesCategory (selectedCategory st) b ∧
               matchesSearch (searchQuery st) b)).
  { split.
    - intros -> b Hb Hm. apply keeps_spec in Hm.
      assert (b ∈ ([] : list Bookmark)) as Hin; [|by apply elem_of_nil in Hin].
      rewrite HP. by apply list_elem_of_filter.
    - intros Hno. destruct V as [|v V]; [done|]. exfalso.
      assert (v ∈ v :: V) as Hin by left. rewrite HP in Hin.
      apply list_elem_of_filter in Hin as [Hk Hin].
      apply (Hno v Hin). by apply keeps_spec. }
  destruct C as [|c C]; simpl.
  - split_and!; [done| |done]. split; [done|]. by intros [? _].
  - destruct V as [|v V]; simpl.
    + split_and!; [done| |done]. split; [|done]. intros _. split; [done|].
      by apply Hnone.
    + split_and!; [done| |].
      * split; [done|]. intros [_ Hno]. by apply Hnone in Hno.
      * by intros cards [= <-].
Qed.

(** X12. For a collection [C] of bookmarks, the ids the view offers for
    dragging are ids of [C]: a drag from one of them to another always
    finds both, completes, and stores a permutation of [C] in which
    distinct ids stay distinct. *)
Theorem drag_within_view (C : list Bookmark) (st : AppState) :
  bookmarks st = toJs <$> C →
  ∃ V,
    sortableItems st = Ok (JStr <$> (id <$> V)) ∧
    (∀ s, s ∈ id <$> V → s ∈ id <$> C) ∧
    (∀ s t, s ∈ id <$> V → t ∈ id <$> V → s ≠ t →
       ∃ st' R,
         handleDragEnd (mkDragEndEvent (UStr s) (Some (UStr t))) st = Ok st' ∧
         bookmarks st' = toJs <$> R ∧ R ≡ₚ C ∧
         (NoDup (id <$> C) → NoDup (id <$> R))).
Proof.
  intros HC. destruct (view_toJs localeCompare ToNumber_nonprimitive st C HC)
    as (V & HV & HP).
  assert (Hsub : ∀ s, s ∈ id <$> V → s ∈ id <$> C).
  { intros s (b & -> & Hb)%list_elem_of_fmap. apply list_elem_of_fmap_2.
    rewrite HP in Hb. by apply list_elem_of_filter in Hb as [_ Hb]. }
  exists V. split_and!; [|done|].
  - unfold sortableItems. rewrite HV. simpl. apply map_elems_id_toJs.
  - intros s t Hs Ht Hst.
    destruct (list_find_present C s (Hsub s Hs)) as (i & x & Hi).
    destruct (list_find_present C t (Hsub t Ht)) as (j & y & Hj).
    exists (setBookmarks (toJs <$> remove_reinsert i j C)
              (customSort (setActiveId None st))), (remove_reinsert i j C).
    split_and!; [by apply (handleDragEnd_found C st s t i j x y)|done| |].
    + apply remove_reinsert_Permutation.
    + intros HN. by rewrite remove_reinsert_Permutation.
Qed.

End RenderingProperties.

(** ** When the view is computed *)

Lemma get_Ok_not_nullish (b v : JsVal) (f : Field) : get b f = Ok v → ¬ nullish b.
Proof. intros H [-> | ->]; discriminate H. Qed.

Lemma filterCallback_text (st : AppState) (b : JsVal) :
  has_text b → ∃ k, filterCallback st b = Ok k.
Proof.
  intros (t & d & Ht & Hd). unfold filterCallback.
  destruct (get_Ok b f_category (get_Ok_not_nullish _ _ _ Ht)) as [c Hc].
  rewrite Hc, Ht, Hd. simpl.
  destruct (decide _); simpl; destruct (includes (toLowerCase t) _); simpl; eauto.
Qed.

Lemma filterCallback_title (st : AppState) (b : JsVal) (k : bool) :
  filterCallback st b = Ok k → ∃ t, get b f_title = Ok (JStr t).
Proof.
  unfold filterCallback. intros H. inv_bind H. inv_bind H. clear H.
  inv_bind Hx0. inv_bind Hx0. clear Hx0.
  destruct x1; try discriminate Hx2. by exists s.
Qed.

Lemma filter_elems_inv (f : JsVal → result bool) (l kept : list JsVal) :
  filter_elems f l = Ok kept →
  kept `sublist_of` l ∧
  (∀ b, b ∈ l → ∃ k, f b = Ok k) ∧
  (∀ b, b ∈ kept → f b = Ok true).
Proof.
  revert kept. induction l as [|y l IH]; intros kept H; simpl in H.
  - injection H as <-. split_and!; [done| |]; intros b Hb; by apply elem_of_nil in Hb.
  - inv_bind H. inv_bind H. injection H as <-.
    destruct (IH _ Hx0) as (Hs & Hall & Hk). split_and!.
    + destruct x; [by apply sublist_skip|by apply sublist_cons].
    + intros b [->|Hb]%elem_of_cons; eauto.
    + destruct x; [|done]. intros b [->|Hb]%elem_of_cons; eauto.
Qed.

Lemma filter_elems_Ok (f : JsVal → result bool) (l : list JsVal) :
  (∀ b, b ∈ l → ∃ k, f b = Ok k) → ∃ kept, filter_elems f l = Ok kept.
Proof.
  induction l as [|y l IH]; intros H; simpl; [eauto|].
  destruct (H y) as [k ->]; [left|]. simpl.
  destruct IH as [kept ->]; [intros b Hb; apply H; by right|]. simpl. eauto.
Qed.

Section ViewTotality.
Variable localeCompare : string → JsVal → Z.
Variable ToNumber_nonprimitive : JsVal → result (option Z).

Local Abbreviation view := (view localeCompare ToNumber_nonprimitive).
Local Abbreviation sortCallback :=
  (sortCallback localeCompare ToNumber_nonprimitive).

Lemma ToNumber_primitive (c : JsVal) :
  primitive c → ∃ n, ToNumber ToNumber_nonprimitive c = Ok n.
Proof. destruct c; simpl; intros H; try done; eauto. Qed.

Lemma Number_sub_primitive (c d : JsVal) :
  primitive c → primitive d →
  ∃ n, Number_sub ToNumber_nonprimitive c d = Ok n.
Proof.
  intros [n Hn]%ToNumber_primitive [m Hm]%ToNumber_primitive.
  unfold Number_sub. rewrite Hn, Hm. simpl. eauto.
Qed.

Lemma SortCompare_text (st : AppState) (x y : JsVal) :
  has_text x → has_text y →
  (sortOption st = newest ∨ sortOption st = oldest →
   has_plain_time x ∧ has_plain_time y) →
  ∃ c, SortCompare (sortCallback st) x y = Ok c.
Proof.
  intros (tx & dx & Htx & Hdx) (ty & dy & Hty & Hdy) Htime.
  assert (∃ v, sortCallback st x y = Ok v) as [v Hv].
  { unfold sortCallback. destruct (sortOption st) eqn:HS.
    - destruct Htime as [(cx & Hcx & Hpx) (cy & Hcy & Hpy)]; [by left|].
      rewrite Hcx, Hcy. simpl. by apply Number_sub_primitive.
    - destruct Htime as [(cx & Hcx & Hpx) (cy & Hcy & Hpy)]; [by right|].
      rewrite Hcx, Hcy. simpl. by apply Number_sub_primitive.
    - rewrite Htx, Hty. simpl. eauto.
    - rewrite Htx, Hty. simpl. eauto.
    - rewrite Hdx, Hdy. simpl. eauto.
    - eauto. }
  unfold SortCompare. rewrite Hv.
  destruct x; try discriminate Htx; destruct y; try discriminate Hty; simpl; eauto.
Qed.

(** X13. The view is computed, for every category and query, as soon as
    every stored element has a string title and a string domain and, when
    the sort option is [newest] or [oldest], a creation time that is not
    an array or an object (a number, as the import requires, or none at
    all), whatever else the element holds or lacks; the elements of the
    view are stored elements.  Conversely a view that is computed shows
    that every stored element has a string title. *)
Theorem view_total_on_text (st : AppState) :
  ((∀ b, b ∈ bookmarks st →
         has_text b ∧
         (sortOption st = newest ∨ sortOption st = oldest → has_plain_time b)) →
   ∃ V, view st = Ok V ∧ ∀ b, b ∈ V → b ∈ bookmarks st) ∧
  (∀ V, view st = Ok V →
        ∀ b, b ∈ bookmarks st → ∃ t, get b f_title = Ok (JStr t)).
Proof.
  split.
  - intros Htext. unfold view.
    destruct (filter_elems_Ok (filterCallback st) (bookmarks st)) as [kept Hk].
    { intros b Hb. by apply filterCallback_text, Htext. }
    rewrite Hk. simpl.
    destruct (filter_elems_inv _ _ _ Hk) as (Hsub & _ & _).
    destruct (sort_elems_perm (sortCallback st) kept) as (V & HV & HP).
    { intros x y Hx Hy.
      pose proof (elem_of_sublist _ _ _ Hx Hsub) as Hx'.
      pose proof (elem_of_sublist _ _ _ Hy Hsub) as Hy'.
      apply SortCompare_text; [by apply Htext..|].
      intros HS. split; by apply Htext. }
    exists V. split; [done|]. intros b Hb. rewrite HP in Hb.
    by eapply elem_of_sublist.
  - intros V H b Hb. unfold view in H. inv_bind H.
    destruct (filter_elems_inv _ _ _ Hx) as (_ & Hall & _).
    destruct (Hall b Hb) as [k Hkb]. by eapply filterCallback_title.
Qed.

End ViewTotality.

(** ** The order of the view by creation time *)

Lemma StronglySorted_weaken {A} (R R' : A → A → Prop) (l : list A) :
  (∀ a b, R a b → R' a b) → StronglySorted R l → StronglySorted R' l.
Proof.
  intros HR. induction 1 as [|a l Hl IH Ha]; constructor; [done|].
  eapply Forall_impl; [exact Ha|]. intros b. apply HR.
Qed.

Section KeySort.
Variable key : Bookmark → Z.

Local Abbreviation cmp := (λ a b : Bookmark, (key a - key b)%Z).

Lemma tinsert_Permutation (x : Bookmark) (l : list Bookmark) :
  tinsert cmp x l ≡ₚ x :: l.
Proof.
  induction l as [|y l IH]; simpl; [done|].
  destruct (_ <=? _)%Z; [done|]. rewrite IH. apply Permutation_swap.
Qed.

Lemma tsort_Permutation (l : list Bookmark) : tsort cmp l ≡ₚ l.
Proof.
  induction l as [|x l IH]; simpl; [done|]. by rewrite tinsert_Permutation, IH.
Qed.

Lemma tinsert_sorted (x : Bookmark) (l : list Bookmark) :
  StronglySorted (λ a b, (key a ≤ key b)%Z) l →
  StronglySorted (λ a b, (key a ≤ key b)%Z) (tinsert cmp x l).
Proof.
  induction l as [|y l IH]; intros Hs; simpl.
  - repeat constructor.
  - apply StronglySorted_inv in Hs as [Hl Hy].
    destruct (Z.leb_spec (key x - key y) 0) as [Hle|Hgt].
    + constructor; [by constructor|]. constructor; [lia|].
      eapply Forall_impl; [exact Hy|]. simpl. intros z Hz. lia.
    + constructor; [by apply IH|].
      rewrite tinsert_Permutation. constructor; [lia|done].
Qed.

Lemma tsort_sorted (l : list Bookmark) :
  StronglySorted (λ a b, (key a ≤ key b)%Z) (tsort cmp l).
Proof.
  induction l as [|x l IH]; simpl; [constructor|]. by apply tinsert_sorted.
Qed.

Lemma tinsert_stable (n : Z) (x : Bookmark) (l : list Bookmark) :
  filter (λ b, key b = n) (tinsert cmp x l) = filter (λ b, key b = n) (x :: l).
Proof.
  induction l as [|y l IH]; simpl; [done|].
  destruct (Z.leb_spec (key x - key y) 0) as [Hle|Hgt]; [done|].
  rewrite (filter_cons _ y), IH, !(filter_cons _ x), !(filter_cons _ y).
  repeat case_decide; try done; lia.
Qed.

Lemma tsort_stable (n : Z) (l : list Bookmark) :
  filter (λ b, key b = n) (tsort cmp l) = filter (λ b, key b = n) l.
Proof.
  induction l as [|x l IH]; simpl; [done|].
  by rewrite tinsert_stable, !filter_cons, IH.
Qed.

End KeySort.

Section ViewOrder.
Variable localeCompare : string → JsVal → Z.
Variable ToNumber_nonprimitive : JsVal → result (option Z).

Local Abbreviation view := (view localeCompare ToNumber_nonprimitive).
Local Abbreviation sortCallback :=
  (sortCallback localeCompare ToNumber_nonprimitive).

Lemma sort_insert_toJs (st : AppState) (cmp : Bookmark → Bookmark → Z)
    (x : Bookmark) (L : list Bookmark) :
  (∀ a b, sortCallback st (toJs a) (toJs b) = Ok (Some (cmp a b))) →
  sort_insert (sortCallback st) (toJs x) (toJs <$> L) =
  Ok (toJs <$> tinsert cmp x L).
Proof.
  intros Hc. induction L as [|y L IH]; [done|].
  rewrite fmap_cons. cbn [sort_insert tinsert].
  assert (SortCompare (sortCallback st) (toJs x) (toJs y) = Ok (cmp x y)) as ->.
  { unfold SortCompare. simpl. by rewrite Hc. }
  rewrite bind_Ok. destruct (cmp x y <=? 0)%Z; [done|]. by rewrite IH.
Qed.

Lemma sort_elems_toJs (st : AppState) (cmp : Bookmark → Bookmark → Z)
    (L : list Bookmark) :
  (∀ a b, sortCallback st (toJs a) (toJs b) = Ok (Some (cmp a b))) →
  sort_elems (sortCallback st) (toJs <$> L) = Ok (toJs <$> tsort cmp L).
Proof.
  intros Hc. induction L as [|x L IH]; [done|].
  rewrite fmap_cons. cbn [sort_elems tsort]. rewrite IH, bind_Ok.
  by apply sort_insert_toJs.
Qed.

(** X14. With the sort option [newest] the view of a collection of
    bookmarks holds the bookmarks the filter keeps, later creation times
    first, and bookmarks created at the same time in the order the
    collection stores them. *)
Theorem view_newest_sorted (C : list Bookmark) (st : AppState) :
  sortOption st = newest →
  bookmarks st = toJs <$> C →
  ∃ V,
    view st = Ok (toJs <$> V) ∧
    V ≡ₚ filter (λ b, keeps (selectedCategory st) (searchQuery st) b) C ∧
    StronglySorted (λ a b, (createdAt b ≤ createdAt a)%Z) V ∧
    (∀ n, filter (λ b, createdAt b = n) V =
          filter (λ b, createdAt b = n)
            (filter (λ b, keeps (selectedCategory st) (searchQuery st) b) C)).
Proof.
  intros HS HC. set (key := λ b : Bookmark, (- createdAt b)%Z).
  set (F := filter (λ b, keeps (selectedCategory st) (searchQuery st) b) C).
  exists (tsort (λ a b, (key a - key b)%Z) F). split_and!.
  - unfold view. rewrite HC, filter_elems_toJs. simpl. fold F.
    apply sort_elems_toJs. intros a b. unfold sortCallback. rewrite HS.
    replace (key a - key b)%Z with (createdAt b - createdAt a)%Z
      by (unfold key; lia).
    done.
  - apply tsort_Permutation.
  - eapply StronglySorted_weaken; [|apply (tsort_sorted key)].
    intros a b. unfold key. simpl. lia.
  - intros n. pose proof (tsort_stable key (- n) F) as H.
    erewrite (list_filter_iff (λ b, createdAt b = n) (λ b, key b = (- n)%Z));
      [|intros b; unfold key; simpl; lia].
    rewrite H. apply list_filter_iff. intros b. unfold key. simpl. lia.
Qed.

(** X15. With the sort option [oldest] the view of a collection of
    bookmarks holds the bookmarks the filter keeps, earlier creation times
    first, and bookmarks created at the same time in the order the
    collection stores them. *)
Theorem view_oldest_sorted (C : list Bookmark) (st : AppState) :
  sortOption st = oldest →
  bookmarks st = toJs <$> C →
  ∃ V,
    view st = Ok (toJs <$> V) ∧
    V ≡ₚ filter (λ b, keeps (selectedCategory st) (searchQuery st) b) C ∧
    StronglySorted (λ a b, (createdAt a ≤ createdAt b)%Z) V ∧
    (∀ n, filter (λ b, createdAt b = n) V =
          filter (λ b, createdAt b = n)
            (filter (λ b, keeps (selectedCategory st) (searchQuery st) b) C)).
Proof.
  intros HS HC.
  set (F := filter (λ b, keeps (selectedCategory st) (searchQuery st) b) C).
  exists (tsort (λ a b, (createdAt a - createdAt b)%Z) F). split_and!.
  - unfold view. rewrite HC, filter_elems_toJs. simpl. fold F.
    apply sort_elems_toJs. intros a b. unfold sortCallback. by rewrite HS.
  - apply (tsort_Permutation createdAt).
  - apply (tsort_sorted createdAt).
  - intros n. apply (tsort_stable createdAt).
Qed.

End ViewOrder.

(** ** More on the import *)

Lemma every_inv (l : list JsVal) :
  every validElement l = Ok true → ∀ b, b ∈ l → valid_shape b.
Proof.
  induction l as [|x l IH]; intros H b Hb; [by apply elem_of_nil in Hb|].
  simpl in H. inv_bind H. destruct x0; [|done].
  apply elem_of_cons in Hb as [->|Hb]; [by apply validElement_spec|by apply IH].
Qed.

Lemma map_elems_elem_of (f : JsVal → result JsVal) (l ys : list JsVal)
    (c j : JsVal) :
  map_elems f l = Ok ys → c ∈ l → f c = Ok j → j ∈ ys.
Proof.
  revert ys. induction l as [|x l IH]; intros ys H Hc Hj;
    [by apply elem_of_nil in Hc|].
  simpl in H. inv_bind H. inv_bind H. injection H as <-.
  apply elem_of_cons in Hc as [->|Hc].
  - rewrite Hx in Hj. injection Hj as ->. left.
  - right. by eapply IH.
Qed.

Lemma Set_has_false (ids : list JsVal) (i j : JsVal) :
  Set_has ids i = false → j ∈ ids → same_value_zero i j = false.
Proof.
  unfold Set_has. induction ids as [|k ids IH]; intros H Hj;
    [by apply elem_of_nil in Hj|].
  simpl in H. apply orb_false_iff in H as [Hk H].
  apply elem_of_cons in Hj as [->|Hj]; [done|by apply IH].
Qed.

Section ImportMore.
Variable JSON_parse : string → option JsVal.

Local Abbreviation handleImportFile := (handleImportFile JSON_parse).

(** X16. Whatever the file and the stored collection hold, an import that
    reports [n] new bookmarks was confirmed, on a file that parsed to an
    array of elements of valid shape; the stored collection is the old one,
    unchanged and in front, followed by [n] elements of the file in the
    order of the file; the id of none of them was the id of a stored
    element; the settings are closed and the view parameters are what they
    were. *)
Theorem import_appends (content : string) (confirmed : bool) (st : AppState)
    (n : nat) :
  snd (handleImportFile content confirmed st) = [AlertImported n] →
  ∃ elems new,
    content ≠ "" ∧ JSON_parse content = Some (JArr elems) ∧
    confirmed = true ∧
    (∀ b, b ∈ elems → valid_shape b) ∧
    bookmarks (fst (handleImportFile content confirmed st))
      = bookmarks st ++ new ∧
    length new = n ∧
    new `sublist_of` elems ∧
    (∀ b c i j, b ∈ new → c ∈ bookmarks st →
                get b f_id = Ok i → get c f_id = Ok j →
                same_value_zero i j = false) ∧
    isSettingsOpen (fst (handleImportFile content confirmed st)) = false ∧
    selectedCategory (fst (handleImportFile content confirmed st))
      = selectedCategory st ∧
    searchQuery (fst (handleImportFile content confirmed st)) = searchQuery st ∧
    sortOption (fst (handleImportFile content confirmed st)) = sortOption st.
Proof.
  unfold handleImportFile.
  destruct (String.eqb_spec content "") as [->|Hc]; [done|].
  destruct (JSON_parse content) as [parsed|]; [|done].
  unfold importParsed. destruct parsed; try done.
  destruct (every validElement elems) as [[|]|e] eqn:Hev; simpl; try done.
  destruct confirmed; [|done].
  unfold mergeBookmarks.
  destruct (map_elems _ (bookmarks st)) as [ids|e] eqn:Hids; simpl; [|done].
  destruct (filter_elems _ elems) as [new|e] eqn:Hnew; simpl; [|done].
  intros [= <-]. exists elems, new.
  destruct (filter_elems_inv _ _ _ Hnew) as (Hsub & _ & Hkept).
  split_and!; try done.
  - by apply every_inv.
  - intros b c i j Hb Hcin Hi Hj. specialize (Hkept b Hb).
    unfold notCurrent in Hkept. rewrite Hi in Hkept. simpl in Hkept.
    injection Hkept as Hh. apply negb_true_iff in Hh.
    eapply Set_has_false; [exact Hh|].
    by eapply (map_elems_elem_of _ _ _ c j Hids).
Qed.

(** X17. Importing the same file of well-formed bookmarks twice: the
    second import reports 0 new bookmarks and leaves the collection as the
    first import left it. *)
Theorem import_twice (A B : list Bookmark) (content : string) (st : AppState) :
  content ≠ "" → JSON_parse content = Some (JArr (toJs <$> B)) →
  bookmarks st = toJs <$> A →
  (∀ b, b ∈ B → well_formed b) →
  ∃ st1 st2 n,
    handleImportFile content true st = (st1, [AlertImported n]) ∧
    handleImportFile content true st1 = (st2, [AlertImported 0]) ∧
    bookmarks st2 = bookmarks st1.
Proof.
  intros Hc Hp HA HB.
  rewrite (handleImportFile_toJs JSON_parse A B content st Hc Hp HA HB).
  set (F := filter (λ b, id b ∉ id <$> A) B).
  set (st1 := setIsSettingsOpen false (setBookmarks (toJs <$> (A ++ F)) st)).
  exists st1. eexists _, _. split; [done|].
  assert (H1 : bookmarks st1 = toJs <$> (A ++ F)) by done.
  rewrite (handleImportFile_toJs JSON_parse (A ++ F) B content st1 Hc Hp H1 HB).
  rewrite filter_none.
  - simpl. by rewrite app_nil_r.
  - intros b Hb Hn. apply Hn. rewrite fmap_app, elem_of_app.
    destruct (decide (id b ∈ id <$> A)) as [Hin|Hout]; [by left|right].
    apply list_elem_of_fmap_2. by apply list_elem_of_filter.
Qed.

(** X18. The import is silent when the file is empty and when the user
    declines the confirmation of a valid file: no message, same state; a
    file that does not parse gives the parse-error message and the same
    state. *)
Theorem import_silent_cases (confirmed : bool) (st : AppState) :
  handleImportFile "" confirmed st = (st, []) ∧
  (∀ content, content ≠ "" → JSON_parse content = None →
     handleImportFile content confirmed st = (st, [AlertParseError])) ∧
  (∀ content elems,
     content ≠ "" → JSON_parse content = Some (JArr elems) →
     (∀ b, b ∈ elems → valid_shape b) →
     handleImportFile content false st = (st, [])).
Proof.
  split_and!.
  - done.
  - intros content Hc Hp. unfold handleImportFile.
    apply String.eqb_neq in Hc. by rewrite Hc, Hp.
  - intros content elems Hc Hp Hv.
    rewrite (handleImportFile_parsed JSON_parse _ _ _ _ Hc Hp).
    unfold importParsed. by rewrite every_valid.
Qed.

End ImportMore.

(** X19. A reorder changes the order, not the selection: for a collection
    of bookmarks and two distinct ids of it, the view after the drag holds
    the same bookmarks as the view before it, for the category and the
    query in force. *)
Theorem reorder_keeps_view_contents
    (localeCompare : string → JsVal → Z)
    (ToNumber_nonprimitive : JsVal → result (option Z))
    (C : list Bookmark) (st : AppState) (s t : string) :
  bookmarks st = toJs <$> C →
  s ≠ t → s ∈ id <$> C → t ∈ id <$> C →
  ∃ st' V V',
    handleDragEnd (mkDragEndEvent (UStr s) (Some (UStr t))) st = Ok st' ∧
    view localeCompare ToNumber_nonprimitive st = Ok (toJs <$> V) ∧
    view localeCompare ToNumber_nonprimitive st' = Ok (toJs <$> V') ∧
    V' ≡ₚ V.
Proof.
  intros HC Hst Hs Ht.
  destruct (list_find_present C s Hs) as (i & x & Hi).
  destruct (list_find_present C t Ht) as (j & y & Hj).
  pose proof (handleDragEnd_found C st s t i j x y HC Hst Hi Hj) as Hrun.
  destruct (view_toJs localeCompare ToNumber_nonprimitive st C HC)
    as (V & HV & HP).
  eexists _, V,
    (filter (λ b, keeps (selectedCategory st) (searchQuery st) b)
       (remove_reinsert i j C)).
  split_and!; [exact Hrun|exact HV| |].
  - rewrite view_custom by apply sortOption_customSort.
    cbn [bookmarks setBookmarks]. rewrite filter_elems_toJs.
    unfold customSort. by case_decide.
  - by rewrite HP, remove_reinsert_Permutation.
Qed.

End Engine.

(** * The theorems at the example collection *)

(** The view under two case mappings.  With the one that lowers the
    capital E with acute accent the query is found in the title written in
    capitals; with the one that lowers the letters A to Z only it is not.
    The filter is as case-insensitive as the engine's mapping is. *)
Lemma view_beyond_ascii :
  view ex_toLowerCase_utf8 ex_StringToNumber ex_localeCompare ex_ToNumber
    ex_state_ecole = Ok [toJs ex_ecole] ∧
  view ex_toLowerCase ex_StringToNumber ex_localeCompare ex_ToNumber
    ex_state_ecole = Ok [] ∧
  ex_toLowerCase_utf8 "" = "" ∧
  ex_toLowerCase_utf8 "ÉCOLE" = "école".
Proof. split_and!; reflexivity. Qed.

(** A creation time that is an object with nothing to call makes the
    subtraction of the sort by time throw, and the view with it; the same
    elements are shown under the other sort options. *)
Lemma view_throws_on_object_time :
  view ex_toLowerCase ex_StringToNumber ex_localeCompare ex_ToNumber_strict
    (ex_state_object_time newest) = Throw TypeError ∧
  view ex_toLowerCase ex_StringToNumber ex_localeCompare ex_ToNumber_strict
    (ex_state_object_time oldest) = Throw TypeError ∧
  view ex_toLowerCase ex_StringToNumber ex_localeCompare ex_ToNumber_strict
    (ex_state_object_time custom) = Ok (bookmarks (ex_state_object_time custom)) ∧
  view ex_toLowerCase ex_StringToNumber ex_localeCompare ex_ToNumber_strict
    (ex_state_object_time a_z) = Ok (bookmarks (ex_state_object_time a_z)).
Proof. split_and!; reflexivity. Qed.


(** With [custom], the view of the example collection is [ex_bar; ex_baz]
    and the stored array is untouched. *)
Lemma view_custom_order_witness :
  sortOption ex_state_custom = custom ∧
  bookmarks ex_state_custom = toJs <$> ex_collection ∧
  ({[ 1%positive := bookmarks ex_state_custom ]} : gmap positive (list JsVal))
    !! 1%positive = Some (bookmarks ex_state_custom) ∧
  ∃ r σ',
    filteredBookmarks ex_toLowerCase ex_StringToNumber ex_localeCompare ex_ToNumber ex_state_custom 1%positive
      {[ 1%positive := bookmarks ex_state_custom ]} = Ok (r, σ') ∧
    σ' !! r = Some (toJs <$> [ex_bar; ex_baz]) ∧
    σ' !! 1%positive = Some (toJs <$> ex_collection).
Proof.
  assert (Hl0 : ({[ 1%positive := bookmarks ex_state_custom ]}
                  : gmap positive (list JsVal)) !! 1%positive
                = Some (bookmarks ex_state_custom)) by reflexivity.
  split; [reflexivity|]. split; [reflexivity|]. split; [exact Hl0|].
  destruct (view_custom_order ex_toLowerCase ex_StringToNumber ex_localeCompare ex_ToNumber ex_collection
              ex_state_custom 1%positive
              {[ 1%positive := bookmarks ex_state_custom ]}
              eq_refl eq_refl Hl0)
    as (r & σ' & V & Hrun & HV & Hr & _ & _ & Hl & _).
  exists r, σ'. split; [exact Hrun|]. split; [|exact Hl].
  rewrite Hr, HV. reflexivity.
Defined.

(** Dragging "1" onto "3" gives [ex_bar; ex_baz; ex_foo]. *)
Lemma handleDragEnd_moves_source_witness :
  bookmarks ex_state = toJs <$> ex_collection ∧
  "1" ≠ "3" ∧ "1" ∈ id <$> ex_collection ∧ "3" ∈ id <$> ex_collection ∧
  ∃ st',
    handleDragEnd (mkDragEndEvent (UStr "1") (Some (UStr "3"))) ex_state = Ok st' ∧
    bookmarks st' = toJs <$> [ex_bar; ex_baz; ex_foo].
Proof.
  assert (H1 : "1" ∈ id <$> ex_collection)
    by (apply (bool_decide_unpack _); vm_compute; exact I).
  assert (H3 : "3" ∈ id <$> ex_collection)
    by (apply (bool_decide_unpack _); vm_compute; exact I).
  assert (Hne : "1" ≠ "3") by discriminate.
  split; [reflexivity|]. split; [exact Hne|]. split; [exact H1|].
  split; [exact H3|].
  destruct (handleDragEnd_moves_source ex_collection ex_state "1" "3" eq_refl)
    as [H _].
  destruct (H Hne H1 H3)
    as (i & j & x & y & R & st' & Hi & Hj & Hrun & Hb & HR & _).
  exists st'. split; [exact Hrun|].
  vm_compute in Hi. vm_compute in Hj.
  injection Hi as <- <-. injection Hj as <- <-.
  rewrite Hb, HR. reflexivity.
Defined.

(** The same drag leaves the sort option at [custom]. *)
Lemma reorder_forces_custom_witness :
  let ev := mkDragEndEvent (UStr "1") (Some (UStr "3")) in
  over ev = Some (UStr "3") ∧ active ev ≠ UStr "3" ∧
  ∃ st', handleDragEnd ev ex_state = Ok st' ∧ sortOption st' = custom.
Proof.
  intros ev.
  assert (Hne : active ev ≠ UStr "3") by discriminate.
  split; [reflexivity|]. split; [exact Hne|].
  destruct (reorder_forces_custom ex_toLowerCase ex_StringToNumber ex_localeCompare ex_ToNumber ev (UStr "3")
              ex_state eq_refl Hne) as [H _].
  eexists. split; [reflexivity|].
  apply H. reflexivity.
Defined.

(** Dragging "1" onto "3" and then back onto "2", which took its place. *)
Lemma reorder_back_restores_witness :
  bookmarks ex_state = toJs <$> ex_collection ∧
  NoDup (id <$> ex_collection) ∧
  ex_collection !! 0 = Some ex_foo ∧ ex_collection !! 2 = Some ex_baz ∧
  ∃ st1 st2,
    handleDragEnd (mkDragEndEvent (UStr "1") (Some (UStr "3"))) ex_state = Ok st1 ∧
    bookmarks st1 = toJs <$> [ex_bar; ex_baz; ex_foo] ∧
    handleDragEnd (mkDragEndEvent (UStr "1") (Some (UStr "2"))) st1 = Ok st2 ∧
    bookmarks st2 = bookmarks ex_state.
Proof.
  split; [reflexivity|]. split; [exact ex_ids_NoDup|].
  split; [reflexivity|]. split; [reflexivity|].
  destruct (reorder_back_restores ex_collection ex_state 0 2 ex_foo ex_baz
              eq_refl ex_ids_NoDup eq_refl eq_refl)
    as (st1 & z & st2 & H1 & Hb1 & _ & Hz & H2 & Hb2).
  vm_compute in Hz. injection Hz as <-.
  exists st1, st2. split; [exact H1|]. split; [exact Hb1|].
  split; [exact H2|exact Hb2].
Defined.

(** The example collection imported into itself, and [ex_bar; ex_baz]
    imported into [ex_foo]. *)
Lemma merge_laws_witness :
  let same := ex_parse (JArr (toJs <$> ex_collection)) in
  let other := ex_parse (JArr (toJs <$> [ex_bar; ex_baz])) in
  let st := mkAppState (toJs <$> [ex_foo]) AllBookmarks "" newest None true in
  "[...]" ≠ "" ∧
  same "[...]" = Some (JArr (toJs <$> ex_collection)) ∧
  bookmarks ex_state = toJs <$> ex_collection ∧
  (∀ b, b ∈ ex_collection → well_formed b) ∧
  (∀ b, b ∈ [ex_bar; ex_baz] → id b ∉ id <$> [ex_foo]) ∧
  (∃ st', handleImportFile same "[...]" true ex_state = (st', [AlertImported 0]) ∧
          bookmarks st' = bookmarks ex_state) ∧
  (∃ st', handleImportFile other "[...]" true st = (st', [AlertImported 2]) ∧
          bookmarks st' = toJs <$> ex_collection ∧
          length (bookmarks st') = 3).
Proof.
  intros same other st.
  assert (Hc : "[...]" ≠ "") by discriminate.
  assert (Hd : ∀ b, b ∈ [ex_bar; ex_baz] → id b ∉ id <$> [ex_foo]).
  { intros b. rewrite !elem_of_cons, elem_of_nil.
    intros [->|[->|[]]]; apply (bool_decide_unpack _); vm_compute; exact I. }
  assert (Hw : ∀ b, b ∈ [ex_bar; ex_baz] → well_formed b).
  { intros b Hb. apply ex_collection_well_formed. by right. }
  split; [exact Hc|]. split; [reflexivity|]. split; [reflexivity|].
  split; [exact ex_collection_well_formed|]. split; [exact Hd|]. split.
  - destruct (merge_laws same ex_collection ex_collection "[...]" ex_state
                Hc eq_refl eq_refl ex_collection_well_formed) as [H _].
    exact (H eq_refl).
  - destruct (merge_laws other [ex_foo] [ex_bar; ex_baz] "[...]" st
                Hc eq_refl eq_refl Hw) as [_ H].
    exact (H Hd).
Defined.

(** A file with an element without url, and a file that is a string. *)
Lemma import_rejects_witness :
  let parsed := JArr [JObj [("id", JStr "9"); ("createdAt", JNum 1)]] in
  "[...]" ≠ "" ∧
  ex_parse parsed "[...]" = Some parsed ∧
  handleImportFile (ex_parse parsed) "[...]" true ex_state
    = (ex_state, [AlertInvalidFile]) ∧
  handleImportFile (ex_parse (JStr "x")) "[...]" true ex_state
    = (ex_state, [AlertNotArray]).
Proof.
  intros parsed.
  assert (Hc : "[...]" ≠ "") by discriminate.
  split; [exact Hc|]. split; [reflexivity|]. split.
  - destruct (import_rejects (ex_parse parsed) "[...]" parsed true ex_state
                Hc eq_refl) as (_ & H & _).
    apply (H _ eq_refl).
    + intros b. rewrite elem_of_cons, elem_of_nil.
      intros [->|[]] [E|E]; discriminate E.
    + eexists. split; [left|].
      intros (i & u & n & _ & _ & Hu & Tu & _).
      injection Hu as <-. exact Tu.
  - destruct (import_rejects (ex_parse (JStr "x")) "[...]" (JStr "x") true
                ex_state Hc eq_refl) as (H & _).
    apply H. intros elems E. discriminate E.
Defined.

Lemma handleSaveBookmark_adds_witness :
  editingBookmark ex_ui = None ∧
  ∃ ui', handleSaveBookmark ex_data "4" 400 ex_ui = Ok ui' ∧
         length (bookmarks (app ui')) = 4.
Proof.
  split; [reflexivity|].
  destruct (handleSaveBookmark_adds ex_toLowerCase ex_data "4" 400 ex_ui eq_refl)
    as (ui' & nb & Hrun & Hb & _).
  exists ui'. split; [exact Hrun|]. rewrite Hb. reflexivity.
Defined.

Lemma handleSaveBookmark_updates_witness :
  let ui := openEditModal ex_bar ex_ui in
  bookmarks (app ui) = toJs <$> ex_collection ∧
  editingBookmark ui = Some ex_bar ∧
  ∃ ui', handleSaveBookmark ex_data "4" 400 ui = Ok ui' ∧
         bookmarks (app ui') =
           toJs <$> [ex_foo;
                     mkBookmark "2" "https://qux.io" "Qux" "qux.io" Learning 200;
                     ex_baz].
Proof.
  intros ui. split; [reflexivity|]. split; [reflexivity|].
  destruct (handleSaveBookmark_updates ex_collection ex_bar ex_data "4" 400 ui
              eq_refl eq_refl) as (ui' & Hrun & Hb & _).
  exists ui'. split; [exact Hrun|]. rewrite Hb. reflexivity.
Defined.

Lemma handleSaveBookmark_missing_id_witness :
  let gone := mkBookmark "9" "" "" "" Websites 0 in
  let ui := openEditModal gone ex_ui in
  editingBookmark ui = Some gone ∧
  (∀ b, b ∈ bookmarks (app ui) →
        ∃ i, get b f_id = Ok i ∧ strict_eq_string i (id gone) = false) ∧
  ∃ ui', handleSaveBookmark ex_data "4" 400 ui = Ok ui' ∧
         bookmarks (app ui') = bookmarks (app ex_ui).
Proof.
  intros gone ui.
  assert (Hids : ∀ b, b ∈ bookmarks (app ui) →
            ∃ i, get b f_id = Ok i ∧ strict_eq_string i (id gone) = false).
  { intros b. simpl. rewrite !elem_of_cons, elem_of_nil.
    intros [->|[->|[->|[]]]]; eexists; split; reflexivity. }
  split; [reflexivity|]. split; [exact Hids|].
  destruct (handleSaveBookmark_missing_id gone ex_data "4" 400 ui eq_refl Hids)
    as (ui' & Hrun & Hb & _).
  exists ui'. split; [exact Hrun|exact Hb].
Defined.

Lemma confirmDelete_removes_witness :
  let ui := handleDeleteClick "2" ex_ui in
  bookmarks (app ui) = toJs <$> ex_collection ∧
  itemToDelete ui = Some "2" ∧ "2" ≠ "" ∧
  ∃ ui', confirmDelete ui = Ok ui' ∧
         bookmarks (app ui') = toJs <$> [ex_foo; ex_baz].
Proof.
  intros ui. assert (Hne : "2" ≠ "") by discriminate.
  split; [reflexivity|]. split; [reflexivity|]. split; [exact Hne|].
  destruct (confirmDelete_removes ex_collection "2" ui eq_refl eq_refl Hne)
    as (ui' & R & Hrun & Hb & HR & _).
  exists ui'. split; [exact Hrun|]. rewrite Hb, HR. reflexivity.
Defined.

Lemma confirmDelete_twice_witness :
  bookmarks (app ex_ui) = toJs <$> ex_collection ∧ "2" ≠ "" ∧
  ∃ ui1 ui2,
    confirmDelete (handleDeleteClick "2" ex_ui) = Ok ui1 ∧
    confirmDelete (handleDeleteClick "2" ui1) = Ok ui2 ∧
    bookmarks (app ui2) = bookmarks (app ui1).
Proof.
  assert (Hne : "2" ≠ "") by discriminate.
  split; [reflexivity|]. split; [exact Hne|].
  exact (confirmDelete_twice ex_collection "2" ex_ui eq_refl Hne).
Defined.

Lemma add_then_delete_restores_witness :
  bookmarks (app ex_ui) = toJs <$> ex_collection ∧
  editingBookmark ex_ui = None ∧ "4" ≠ "" ∧ ("4" ∉ id <$> ex_collection) ∧
  ∃ ui1 ui2,
    handleSaveBookmark ex_data "4" 400 ex_ui = Ok ui1 ∧
    length (bookmarks (app ui1)) = 4 ∧
    confirmDelete (handleDeleteClick "4" ui1) = Ok ui2 ∧
    bookmarks (app ui2) = bookmarks (app ex_ui).
Proof.
  assert (Hne : "4" ≠ "") by discriminate.
  assert (Hfresh : "4" ∉ id <$> ex_collection)
    by (apply (bool_decide_unpack _); vm_compute; exact I).
  split; [reflexivity|]. split; [reflexivity|]. split; [exact Hne|].
  split; [exact Hfresh|].
  exact (add_then_delete_restores ex_collection ex_data "4" 400 ex_ui
           eq_refl eq_refl Hne Hfresh).
Defined.

Lemma toggleTheme_involutive_witness :
  (theme ex_ui = "dark" ∨ theme ex_ui = "light") ∧
  toggleTheme (toggleTheme ex_ui) = ex_ui.
Proof.
  assert (H : theme ex_ui = "dark" ∨ theme ex_ui = "light") by (left; reflexivity).
  split; [exact H|].
  destruct (toggleTheme_involutive ex_ui) as (_ & _ & Hback & _).
  exact (Hback H).
Defined.

Lemma handleDragEnd_permutes_witness :
  let ev := mkDragEndEvent (UStr "zz") (Some (UStr "2")) in
  let st' := setBookmarks (toJs <$> [ex_foo; ex_baz; ex_bar])
               (setSortOption custom ex_state) in
  bookmarks ex_state ≠ [] ∧
  handleDragEnd ev ex_state = Ok st' ∧
  bookmarks st' ≡ₚ bookmarks ex_state.
Proof.
  intros ev st'.
  assert (Hne : bookmarks ex_state ≠ []) by discriminate.
  assert (Hrun : handleDragEnd ev ex_state = Ok st') by reflexivity.
  split; [exact Hne|]. split; [exact Hrun|].
  destruct (handleDragEnd_permutes ev ex_state st' Hne Hrun) as (HP & _).
  exact HP.
Defined.

Lemma handleDragEnd_on_empty_witness :
  let ev := mkDragEndEvent (UStr "1") (Some (UStr "2")) in
  bookmarks ex_empty = [] ∧ over ev = Some (UStr "2") ∧ active ev ≠ UStr "2" ∧
  ∃ st', handleDragEnd ev ex_empty = Ok st' ∧
         view ex_toLowerCase ex_StringToNumber ex_localeCompare ex_ToNumber st' = Throw TypeError.
Proof.
  intros ev. assert (Hne : active ev ≠ UStr "2") by discriminate.
  split; [reflexivity|]. split; [reflexivity|]. split; [exact Hne|].
  destruct (handleDragEnd_on_empty ex_toLowerCase ex_StringToNumber ex_localeCompare ex_ToNumber ev (UStr "2")
              ex_empty eq_refl eq_refl Hne) as (st' & Hrun & _ & Hv).
  exists st'. split; [exact Hrun|exact Hv].
Defined.

Lemma activeBookmark_follows_drag_witness :
  bookmarks ex_state = toJs <$> ex_collection ∧
  NoDup (id <$> ex_collection) ∧ ex_bar ∈ ex_collection ∧ id ex_bar ≠ "" ∧
  activeBookmark (handleDragStart (UStr "2") ex_state) = Ok (toJs ex_bar).
Proof.
  assert (Hin : ex_bar ∈ ex_collection) by (right; left).
  assert (Hne : id ex_bar ≠ "") by discriminate.
  split; [reflexivity|]. split; [exact ex_ids_NoDup|]. split; [exact Hin|].
  split; [exact Hne|].
  destruct (activeBookmark_follows_drag ex_collection ex_bar ex_state
              eq_refl ex_ids_NoDup Hin Hne) as (H & _).
  exact H.
Defined.

Lemma screen_branches_witness :
  bookmarks ex_state = toJs <$> ex_collection ∧
  ∃ sc, screen ex_toLowerCase ex_StringToNumber ex_localeCompare ex_ToNumber ex_state = Ok sc ∧
        sc ≠ EmptyState.
Proof.
  split; [reflexivity|].
  destruct (screen_branches ex_toLowerCase ex_StringToNumber ex_localeCompare ex_ToNumber ex_collection ex_state
              eq_refl) as (sc & Hsc & Hempty & _).
  exists sc. split; [exact Hsc|].
  intros E. apply Hempty in E. discriminate E.
Defined.

Lemma drag_within_view_witness :
  bookmarks ex_state = toJs <$> ex_collection ∧
  ∃ V, sortableItems ex_toLowerCase ex_StringToNumber ex_localeCompare ex_ToNumber ex_state
         = Ok (JStr <$> (id <$> V)) ∧
       ∀ s, s ∈ id <$> V → s ∈ id <$> ex_collection.
Proof.
  split; [reflexivity|].
  destruct (drag_within_view ex_toLowerCase ex_StringToNumber ex_localeCompare ex_ToNumber ex_collection ex_state
              eq_refl) as (V & HV & Hsub & _).
  exists V. split; [exact HV|exact Hsub].
Defined.

Lemma view_total_on_text_witness :
  let st := mkAppState
              [JObj [("title", JStr "Tea"); ("domain", JStr "d.io");
                     ("createdAt", JNum 5)];
               JObj [("title", JStr "tin"); ("domain", JStr "e.io")]]
              AllBookmarks "t" newest None false in
  (∀ b, b ∈ bookmarks st →
        has_text b ∧
        (sortOption st = newest ∨ sortOption st = oldest → has_plain_time b)) ∧
  ∃ V, view ex_toLowerCase ex_StringToNumber ex_localeCompare ex_ToNumber st
         = Ok V ∧ length V = 2.
Proof.
  intros st.
  assert (Ht : ∀ b, b ∈ bookmarks st →
            has_text b ∧
            (sortOption st = newest ∨ sortOption st = oldest → has_plain_time b)).
  { intros b. simpl. rewrite !elem_of_cons, elem_of_nil.
    intros [->|[->|[]]].
    - split; [exists "Tea", "d.io"; split; reflexivity|].
      intros _. exists (JNum 5). split; [reflexivity|exact I].
    - split; [exists "tin", "e.io"; split; reflexivity|].
      intros _. exists JUndefined. split; [reflexivity|exact I]. }
  split; [exact Ht|].
  destruct (view_total_on_text ex_toLowerCase ex_StringToNumber ex_localeCompare ex_ToNumber st) as [H _].
  destruct (H Ht) as (V & HV & _). exists V. split; [exact HV|].
  vm_compute in HV. injection HV as <-. reflexivity.
Defined.

Lemma view_newest_sorted_witness :
  sortOption ex_state = newest ∧
  bookmarks ex_state = toJs <$> ex_collection ∧
  ∃ V, view ex_toLowerCase ex_StringToNumber ex_localeCompare ex_ToNumber ex_state = Ok (toJs <$> V) ∧
       StronglySorted (λ a b, (createdAt b ≤ createdAt a)%Z) V.
Proof.
  split; [reflexivity|]. split; [reflexivity|].
  destruct (view_newest_sorted ex_toLowerCase ex_StringToNumber ex_localeCompare ex_ToNumber ex_collection
              ex_state eq_refl eq_refl) as (V & HV & _ & HS & _).
  exists V. split; [exact HV|exact HS].
Defined.

Lemma view_oldest_sorted_witness :
  let st := mkAppState (toJs <$> ex_collection) AllBookmarks "" oldest None true in
  sortOption st = oldest ∧
  bookmarks st = toJs <$> ex_collection ∧
  ∃ V, view ex_toLowerCase ex_StringToNumber ex_localeCompare ex_ToNumber st = Ok (toJs <$> V) ∧
       StronglySorted (λ a b, (createdAt a ≤ createdAt b)%Z) V.
Proof.
  intros st. split; [reflexivity|]. split; [reflexivity|].
  destruct (view_oldest_sorted ex_toLowerCase ex_StringToNumber ex_localeCompare ex_ToNumber ex_collection
              st eq_refl eq_refl) as (V & HV & _ & HS & _).
  exists V. split; [exact HV|exact HS].
Defined.

Lemma import_appends_witness :
  let parse := ex_parse (JArr [toJs ex_bar; ex_bare "9"]) in
  snd (handleImportFile parse "[...]" true ex_state) = [AlertImported 1] ∧
  ∃ new, bookmarks (fst (handleImportFile parse "[...]" true ex_state))
           = bookmarks ex_state ++ new ∧ length new = 1.
Proof.
  intros parse.
  assert (H : snd (handleImportFile parse "[...]" true ex_state)
              = [AlertImported 1]) by reflexivity.
  split; [exact H|].
  destruct (import_appends parse "[...]" true ex_state 1 H)
    as (elems & new & _ & _ & _ & _ & Hb & Hn & _).
  exists new. split; [exact Hb|exact Hn].
Defined.

Lemma import_twice_witness :
  let parse := ex_parse (JArr (toJs <$> [ex_bar; ex_baz])) in
  let st := mkAppState (toJs <$> [ex_foo]) AllBookmarks "" newest None true in
  "[...]" ≠ "" ∧
  parse "[...]" = Some (JArr (toJs <$> [ex_bar; ex_baz])) ∧
  bookmarks st = toJs <$> [ex_foo] ∧
  (∀ b, b ∈ [ex_bar; ex_baz] → well_formed b) ∧
  ∃ st1 st2 n,
    handleImportFile parse "[...]" true st = (st1, [AlertImported n]) ∧
    handleImportFile parse "[...]" true st1 = (st2, [AlertImported 0]) ∧
    bookmarks st2 = bookmarks st1.
Proof.
  intros parse st.
  assert (Hc : "[...]" ≠ "") by discriminate.
  assert (Hw : ∀ b, b ∈ [ex_bar; ex_baz] → well_formed b).
  { intros b Hb. apply ex_collection_well_formed. by right. }
  split; [exact Hc|]. split; [reflexivity|]. split; [reflexivity|].
  split; [exact Hw|].
  exact (import_twice parse [ex_foo] [ex_bar; ex_baz] "[...]" st
           Hc eq_refl eq_refl Hw).
Defined.

Lemma import_silent_cases_witness :
  let parse := ex_parse (JArr (toJs <$> ex_collection)) in
  "[...]" ≠ "" ∧
  parse "[...]" = Some (JArr (toJs <$> ex_collection)) ∧
  (∀ b, b ∈ toJs <$> ex_collection → valid_shape b) ∧
  handleImportFile parse "[...]" false ex_state = (ex_state, []).
Proof.
  intros parse.
  assert (Hc : "[...]" ≠ "") by discriminate.
  assert (Hv : ∀ b, b ∈ toJs <$> ex_collection → valid_shape b).
  { intros b (c & -> & Hin)%list_elem_of_fmap.
    by apply valid_shape_toJs, ex_collection_well_formed. }
  split; [exact Hc|]. split; [reflexivity|]. split; [exact Hv|].
  destruct (import_silent_cases parse false ex_state) as (_ & _ & H).
  exact (H "[...]" (toJs <$> ex_collection) Hc eq_refl Hv).
Defined.

Lemma reorder_keeps_view_contents_witness :
  bookmarks ex_state = toJs <$> ex_collection ∧
  "2" ≠ "3" ∧ "2" ∈ id <$> ex_collection ∧ "3" ∈ id <$> ex_collection ∧
  ∃ st' V V',
    handleDragEnd (mkDragEndEvent (UStr "2") (Some (UStr "3"))) ex_state = Ok st' ∧
    view ex_toLowerCase ex_StringToNumber ex_localeCompare ex_ToNumber ex_state = Ok (toJs <$> V) ∧
    view ex_toLowerCase ex_StringToNumber ex_localeCompare ex_ToNumber st' = Ok (toJs <$> V') ∧
    V' ≡ₚ V.
Proof.
  assert (H2 : "2" ∈ id <$> ex_collection)
    by (apply (bool_decide_unpack _); vm_compute; exact I).
  assert (H3 : "3" ∈ id <$> ex_collection)
    by (apply (bool_decide_unpack _); vm_compute; exact I).
  assert (Hne : "2" ≠ "3") by discriminate.
  split; [reflexivity|]. split; [exact Hne|]. split; [exact H2|].
  split; [exact H3|].
  exact (reorder_keeps_view_contents ex_toLowerCase ex_StringToNumber ex_localeCompare ex_ToNumber ex_collection
           ex_state "2" "3" eq_refl Hne H2 H3).
Defined.
